(** * e2ee-chat: the session relay and the client key-bootstrap protocol

    A shallow embedding of the relay (the WebSocket server) and of the
    browser client (public/ts/script.ts), with the properties the
    specification states about them. *)

From Stdlib Require Import ZArith String Ascii List Lia SpecFloat.
From Stdlib.Strings Require Import Byte.
From stdpp Require Import gmap strings pretty.

Set Warnings "-register-all".

Local Open Scope string_scope.
Local Open Scope list_scope.
Local Open Scope Z_scope.

(** ** JavaScript values that cross the wire *)

(** What [JSON.parse] returns.  Numbers are IEEE doubles; an object keeps
    its members in source order. *)
Inductive json : Type :=
| JNull
| JBool (b : bool)
| JNum (x : spec_float)
| JStr (s : string)
| JArr (items : list json)
| JObj (members : list (string * json)).

(** A JavaScript value that may be [undefined]. *)
Abbreviation jsval := (option json).
Abbreviation undefined := (@None json).

Inductive error : Type :=
| SyntaxError
| TypeError
| InvalidCharacterError
| DataError
| OperationError.

(** The outcome of evaluating something that may throw. *)
Inductive completion (A : Type) : Type :=
| Normal (a : A)
| Throw (e : error).
Arguments Normal {A} a.
Arguments Throw {A} e.

#[global] Instance completion_bind : MBind completion := fun A B k c =>
  match c with
  | Normal a => k a
  | Throw e => Throw e
  end.

(** The last member named [name]: [JSON.parse] keeps the last duplicate. *)
Fixpoint last_member (name : string) (members : list (string * json)) : jsval :=
  match members with
  | [] => undefined
  | (k, v) :: rest =>
      match last_member name rest with
      | Some v' => Some v'
      | None => if String.eqb k name then Some v else undefined
      end
  end.

(** [v.name] for the names the programs read ([type], [key], [for], [to],
    [ciphertext]): a [TypeError] on [null], the member on an object, and
    [undefined] on every other value, none of which has such a property. *)
Definition get (name : string) (v : json) : completion jsval :=
  match v with
  | JNull => Throw TypeError
  | JObj members => Normal (last_member name members)
  | _ => Normal undefined
  end.

(** ToBoolean on what JSON can carry. *)
Definition truthy (v : jsval) : bool :=
  match v with
  | None => false
  | Some JNull => false
  | Some (JBool b) => b
  | Some (JNum (S754_zero _)) => false
  | Some (JNum S754_nan) => false
  | Some (JNum _) => true
  | Some (JStr s) => negb (String.eqb s "")
  | Some (JArr _) => true
  | Some (JObj _) => true
  end.

(** The object literal [{k1: v1, ...}] as [JSON.stringify] writes it: a
    member whose value is [undefined] is left out. *)
Fixpoint stringify_members (fields : list (string * jsval)) : list (string * json) :=
  match fields with
  | [] => []
  | (k, Some v) :: rest => (k, v) :: stringify_members rest
  | (_, None) :: rest => stringify_members rest
  end.

Definition object (fields : list (string * jsval)) : json :=
  JObj (stringify_members fields).

(** [v.name] where the access does not throw. *)
Definition field (name : string) (v : json) : jsval :=
  match get name v with
  | Normal x => x
  | Throw _ => undefined
  end.

(** ** The relay *)

Module Relay.

(** A [WebSocket] handle of the server; only its identity matters. *)
Definition WebSocket := nat.

(** type Client = { id; socket; publicKey? } *)
Record Client : Type := mkClient {
  id : string;
  socket : WebSocket;
  publicKey : jsval
}.

Inductive log_entry : Type :=
| console_warn (text : string)
| console_error (text : string) (err : error).

(** [Math.random()] is a double in [0, 1); the draw is carried as the
    numerator [m] of [m / 2^53], and the arithmetic on it is exact. *)
Definition random_range (m : Z) : Prop := 0 <= m < 2 ^ 53.

(** Math.floor(100000 + Math.random() * 900000).toString() *)
Definition generateSessionId (m : Z) : string :=
  pretty (100000 + (m * 900000) / 2 ^ 53).

(** [clients.get(k)]: the keys of the map are strings, and a key of any
    other type is equal to none of them. *)
Definition Map_get (clients : gmap string Client) (k : jsval) : option Client :=
  match k with
  | Some (JStr s) => clients !! s
  | _ => None
  end.

(** What one run of a handler leaves behind. *)
Record outcome : Type := mkOutcome {
  registry : gmap string Client;
  sends : list (WebSocket * json);
  logs : list log_entry
}.

Definition quiet (clients : gmap string Client) : outcome :=
  mkOutcome clients [] [].

(** The body of the [try] block of [ws.on("message")], for the connection
    whose closure holds [sessionId] and [ws].  [data] is what
    [JSON.parse(data.toString())] produces: [None] when it throws. *)
Definition try_block (sessionId : string) (ws : WebSocket) (data : option json)
    (clients : gmap string Client) : completion outcome :=
  parsed ← match data with Some v => Normal v | None => Throw SyntaxError end;
  type ← get "type" parsed;
  match type with
  | Some (JStr kind) =>
      if String.eqb kind "publicKey" then
        key ← get "key" parsed;
        match clients !! sessionId with
        | Some c =>
            Normal (quiet (<[sessionId := mkClient (id c) (socket c) key]> clients))
        | None => Throw TypeError
        end
      else if String.eqb kind "getPublicKey" then
        for_ ← get "for" parsed;
        let recipient := Map_get clients for_ in
        if truthy (recipient ≫= publicKey) then
          let reply := object [("type", Some (JStr "publicKey"));
                               ("for", for_);
                               ("key", recipient ≫= publicKey)] in
          Normal (mkOutcome clients [(ws, reply)] [])
        else Normal (quiet clients)
      else if String.eqb kind "message" then
        to ← get "to" parsed;
        match Map_get clients to with
        | Some recipient =>
            let senderPublicKey := (clients !! sessionId) ≫= publicKey in
            ciphertext ← get "ciphertext" parsed;
            let forward := object [("type", Some (JStr "message"));
                                   ("from", Some (JStr sessionId));
                                   ("ciphertext", ciphertext);
                                   ("senderPublicKey", senderPublicKey)] in
            Normal (mkOutcome clients [(socket recipient, forward)] [])
        | None => Normal (quiet clients)
        end
      else Normal (mkOutcome clients [] [console_warn "Unknown message type"])
  | _ => Normal (mkOutcome clients [] [console_warn "Unknown message type"])
  end.

(** ws.on("message", ...): the [try] block with its [catch]. *)
Definition on_message (sessionId : string) (ws : WebSocket) (data : option json)
    (clients : gmap string Client) : outcome :=
  match try_block sessionId ws data clients with
  | Normal o => o
  | Throw err => mkOutcome clients [] [console_error "Error parsing message:" err]
  end.

(** wss.on("connection", ...) up to the registration of the handlers. *)
Definition on_connection (ws : WebSocket) (m : Z) (clients : gmap string Client)
    : string * outcome :=
  let sessionId := generateSessionId m in
  let initMsg := object [("type", Some (JStr "init"));
                         ("sessionId", Some (JStr sessionId))] in
  (sessionId,
   mkOutcome (<[sessionId := mkClient sessionId ws None]> clients) [(ws, initMsg)] []).

(** ws.on("close", ...) *)
Definition on_close (sessionId : string) (clients : gmap string Client)
    : gmap string Client :=
  delete sessionId clients.

(** The server process: the registry, the open connections with the
    [sessionId] their handlers captured, and what has been written to the
    sockets and to the console so far. *)
Record Server : Type := mkServer {
  clients : gmap string Client;
  open : gmap WebSocket string;
  outbox : list (WebSocket * json);
  console : list log_entry
}.

Definition boot : Server := mkServer ∅ ∅ [] [].

Inductive event : Type :=
| Connection (ws : WebSocket) (m : Z)
| Frame (ws : WebSocket) (data : option json)
| Close (ws : WebSocket).

Definition absorb (s : Server) (open' : gmap WebSocket string) (o : outcome) : Server :=
  mkServer (registry o) open' (outbox s ++ sends o) (console s ++ logs o).

(** One event of the event loop; [None] when the event cannot occur (a
    frame or a close on a socket that is not open, a second connection
    event for an open socket, a draw outside [0, 1)). *)
Definition step (s : Server) (e : event) : option Server :=
  match e with
  | Connection ws m =>
      match open s !! ws with
      | Some _ => None
      | None =>
          if bool_decide (random_range m) then
            let '(sessionId, o) := on_connection ws m (clients s) in
            Some (absorb s (<[ws := sessionId]> (open s)) o)
          else None
      end
  | Frame ws data =>
      sessionId ← open s !! ws;
      Some (absorb s (open s) (on_message sessionId ws data (clients s)))
  | Close ws =>
      sessionId ← open s !! ws;
      Some (mkServer (on_close sessionId (clients s)) (delete ws (open s))
                     (outbox s) (console s))
  end.

Fixpoint run (s : Server) (es : list event) : option Server :=
  match es with
  | [] => Some s
  | e :: rest => s' ← step s e; run s' rest
  end.

Inductive reachable : Server -> Prop :=
| reachable_boot : reachable boot
| reachable_step s e s' : reachable s -> step s e = Some s' -> reachable s'.

(** Every entry of the registry is stored under its own [id]. *)
Definition keyed_by_id (clients : gmap string Client) : Prop :=
  forall k c, clients !! k = Some c -> id c = k.

(** The frames the switch of the handler has a case for. *)
Definition recognised (data : option json) : bool :=
  match data with
  | Some (JObj members) =>
      match last_member "type" members with
      | Some (JStr kind) =>
          String.eqb kind "publicKey" || String.eqb kind "getPublicKey"
          || String.eqb kind "message"
      | _ => false
      end
  | _ => false
  end.

(** A publish-public-key frame and a request-public-key frame. *)
Definition publish (key : json) : json :=
  JObj [("type", JStr "publicKey"); ("key", key)].

Definition request (for_ : string) : json :=
  JObj [("type", JStr "getPublicKey"); ("for", JStr for_)].

(** Every entry of the registry belongs to an open connection, and the
    handlers of that connection hold the key the entry is stored under. *)
Definition sockets_open (s : Server) : Prop :=
  forall k c, clients s !! k = Some c -> open s !! socket c = Some k.

(** The three kinds of message the relay writes. *)
Definition outgoing_kind (msg : json) : bool :=
  match field "type" msg with
  | Some (JStr kind) =>
      String.eqb kind "init" || String.eqb kind "publicKey"
      || String.eqb kind "message"
  | _ => false
  end.


(** A forward-message frame as a client writes it. *)
Definition forward (to : string) (ciphertext : json) : json :=
  JObj [("type", JStr "message"); ("to", JStr to); ("ciphertext", ciphertext)].

End Relay.

(** ** Typed arrays *)

(** A [Uint8Array] is a list of bytes; a [number[]] that holds integers is
    a list of [Z]. *)
Definition byte_value (b : byte) : Z := Z.of_N (Byte.to_N b).

(** ToUint8: the conversion [new Uint8Array(numbers)] applies to each
    element. *)
Definition ToUint8 (n : Z) : byte :=
  match Byte.of_N (Z.to_N (Z.land n 0xFF)) with
  | Some b => b
  | None => "000"%byte
  end.

(** Array.from(uint8Array) *)
Definition Array_from (a : list byte) : list Z := map byte_value a.

(** new Uint8Array(numbers) *)
Definition Uint8Array_from (numbers : list Z) : list byte := map ToUint8 numbers.

(** new Uint8Array(n): [n] zero bytes. *)
Definition Uint8Array_new (n : nat) : list byte := repeat "000"%byte n.

(** [crypto.getRandomValues(array)] overwrites every element; the values
    it draws are the stream [rnd]. *)
Definition getRandomValues (array : list byte) (rnd : nat -> byte) : list byte :=
  imap (fun i _ => rnd i) array.

(** A check of every integer of [lo, lo + p). *)
Fixpoint forall_below (p : positive) (lo : Z) (f : Z -> bool) : bool :=
  match p with
  | xH => f lo
  | xO q => forall_below q lo f && forall_below q (lo + Zpos q) f
  | xI q => f lo && forall_below q (lo + 1) f && forall_below q (lo + 1 + Zpos q) f
  end.

(** ** btoa and atob *)

Module Base64.

Definition alphabet : string :=
  "ABCDEFGHIJKLMNOPQRSTUVWXYZabcdefghijklmnopqrstuvwxyz0123456789+/".

Definition char_of (v : Z) : ascii :=
  match String.get (Z.to_nat v) alphabet with
  | Some c => c
  | None => "="%char
  end.

Definition value_of (c : ascii) : option Z :=
  let n := Z.of_N (N_of_ascii c) in
  if (65 <=? n) && (n <=? 90) then Some (n - 65)
  else if (97 <=? n) && (n <=? 122) then Some (n - 71)
  else if (48 <=? n) && (n <=? 57) then Some (n + 4)
  else if n =? 43 then Some 62
  else if n =? 47 then Some 63
  else None.

(** Three bytes give four six-bit groups; a tail of one or two bytes gives
    two or three, the last one padded with zero bits. *)
Fixpoint sextets (bs : list byte) : list Z :=
  match bs with
  | [] => []
  | a :: rest =>
      let a := byte_value a in
      match rest with
      | [] => [a / 4; a mod 4 * 16]
      | b :: rest =>
          let b := byte_value b in
          match rest with
          | [] => [a / 4; a mod 4 * 16 + b / 16; b mod 16 * 4]
          | c :: rest =>
              let c := byte_value c in
              a / 4 :: a mod 4 * 16 + b / 16 :: b mod 16 * 4 + c / 64 :: c mod 64
              :: sextets rest
          end
      end
  end.

Definition padding (n : nat) : list ascii :=
  match (n mod 3)%nat with
  | 0%nat => []
  | 1%nat => ["="; "="]%char
  | _ => ["="]%char
  end.

(** btoa(String.fromCharCode(...bytes)) *)
Definition btoa (bs : list byte) : string :=
  string_of_list_ascii (map char_of (sextets bs) ++ padding (length bs)).

Definition is_whitespace (c : ascii) : bool :=
  let n := N_of_ascii c in
  ((n =? 9) || (n =? 10) || (n =? 12) || (n =? 13) || (n =? 32))%N.

Definition is_pad (c : ascii) : bool := (N_of_ascii c =? 61)%N.

(** Removes one or two [=] signs from the end. *)
Fixpoint strip_padding (cs : list ascii) : list ascii :=
  match cs with
  | [] => []
  | c :: rest =>
      match rest with
      | [] => if is_pad c then [] else [c]
      | [d] => if is_pad d then (if is_pad c then [] else [c]) else [c; d]
      | _ => c :: strip_padding rest
      end
  end.

Fixpoint values (cs : list ascii) : option (list Z) :=
  match cs with
  | [] => Some []
  | c :: rest =>
      v ← value_of c; vs ← values rest; Some (v :: vs)
  end.

Fixpoint unsextets (vs : list Z) : list byte :=
  match vs with
  | p :: q :: rest =>
      match rest with
      | [] => [ToUint8 (p * 4 + q / 16)]
      | r :: rest =>
          match rest with
          | [] => [ToUint8 (p * 4 + q / 16); ToUint8 (q mod 16 * 16 + r / 4)]
          | s :: rest =>
              ToUint8 (p * 4 + q / 16) :: ToUint8 (q mod 16 * 16 + r / 4)
              :: ToUint8 (r mod 4 * 64 + s) :: unsextets rest
          end
      end
  | _ => []
  end.

(** [atob]: the forgiving-base64 decode; [None] when it throws
    InvalidCharacterError. *)
Definition atob (data : string) : option (list byte) :=
  let cs := List.filter (fun c => negb (is_whitespace c)) (list_ascii_of_string data) in
  let cs := if (length cs mod 4 =? 0)%nat then strip_padding cs else cs in
  if (length cs mod 4 =? 1)%nat then None
  else vs ← values cs; Some (unsextets vs).

(** A six-bit value. *)
Definition sextet (v : Z) : Prop := 0 <= v < 64.

(** The character of a six-bit value decodes to it and is neither
    whitespace nor padding. *)
Definition char_ok (v : Z) : bool :=
  match value_of (char_of v) with
  | Some v' => (v' =? v) && negb (is_whitespace (char_of v)) && negb (is_pad (char_of v))
  | None => false
  end.

End Base64.

(** ** TextEncoder and TextDecoder *)

(** A JavaScript string whose content matters: its UTF-16 code units. *)
Abbreviation DOMString := (list Z).

Module Unicode.

Definition is_lead (u : Z) : bool := (0xD800 <=? u) && (u <=? 0xDBFF).
Definition is_trail (u : Z) : bool := (0xDC00 <=? u) && (u <=? 0xDFFF).
Definition is_code_unit (u : Z) : bool := (0 <=? u) && (u <? 0x10000).

(** The conversion of a string to scalar values: a surrogate pair is one
    code point, an unpaired surrogate becomes U+FFFD. *)
Fixpoint scalar_values (s : DOMString) : list Z :=
  match s with
  | [] => []
  | u :: rest =>
      if is_lead u then
        match rest with
        | l :: rest' =>
            if is_trail l
            then 0x10000 + (u - 0xD800) * 0x400 + (l - 0xDC00) :: scalar_values rest'
            else 0xFFFD :: scalar_values rest
        | [] => [0xFFFD]
        end
      else if is_trail u then 0xFFFD :: scalar_values rest
      else u :: scalar_values rest
  end.

(** No unpaired surrogate, and every element a 16-bit code unit. *)
Fixpoint well_formed (s : DOMString) : bool :=
  match s with
  | [] => true
  | u :: rest =>
      is_code_unit u &&
      if is_lead u then
        match rest with
        | l :: rest' => is_trail l && well_formed rest'
        | [] => false
        end
      else negb (is_trail u) && well_formed rest
  end.

Definition utf16_encode (c : Z) : list Z :=
  if c <? 0x10000 then [c]
  else [0xD800 + (c - 0x10000) / 0x400; 0xDC00 + (c - 0x10000) mod 0x400].

Definition utf8_encode (c : Z) : list byte :=
  if c <? 0x80 then [ToUint8 c]
  else if c <? 0x800 then
    [ToUint8 (Z.lor 0xC0 (Z.shiftr c 6)); ToUint8 (Z.lor 0x80 (Z.land c 0x3F))]
  else if c <? 0x10000 then
    [ToUint8 (Z.lor 0xE0 (Z.shiftr c 12));
     ToUint8 (Z.lor 0x80 (Z.land (Z.shiftr c 6) 0x3F));
     ToUint8 (Z.lor 0x80 (Z.land c 0x3F))]
  else
    [ToUint8 (Z.lor 0xF0 (Z.shiftr c 18));
     ToUint8 (Z.lor 0x80 (Z.land (Z.shiftr c 12) 0x3F));
     ToUint8 (Z.lor 0x80 (Z.land (Z.shiftr c 6) 0x3F));
     ToUint8 (Z.lor 0x80 (Z.land c 0x3F))].

(** new TextEncoder().encode(s) *)
Definition TextEncoder_encode (s : DOMString) : list byte :=
  flat_map utf8_encode (scalar_values s).

(** The state of the UTF-8 decoder. *)
Record decoder : Type := mkDecoder {
  code_point : Z;
  bytes_seen : Z;
  bytes_needed : Z;
  lower : Z;
  upper : Z
}.

Definition start : decoder := mkDecoder 0 0 0 0x80 0xBF.

(** A byte met while no sequence is open. *)
Definition lead_byte (b : Z) : decoder * list Z :=
  if b <=? 0x7F then (start, [b])
  else if (0xC2 <=? b) && (b <=? 0xDF) then
    (mkDecoder (Z.land b 0x1F) 0 1 0x80 0xBF, [])
  else if (0xE0 <=? b) && (b <=? 0xEF) then
    (mkDecoder (Z.land b 0xF) 0 2
       (if b =? 0xE0 then 0xA0 else 0x80) (if b =? 0xED then 0x9F else 0xBF), [])
  else if (0xF0 <=? b) && (b <=? 0xF4) then
    (mkDecoder (Z.land b 0x7) 0 3
       (if b =? 0xF0 then 0x90 else 0x80) (if b =? 0xF4 then 0x8F else 0xBF), [])
  else (start, [0xFFFD]).

(** The handler of the decoder for one byte: the next state and the code
    points it emits.  A byte that cannot continue the open sequence ends
    it with U+FFFD and is then read again as a lead byte. *)
Definition feed (d : decoder) (byte : byte) : decoder * list Z :=
  let b := byte_value byte in
  if bytes_needed d =? 0 then lead_byte b
  else if (lower d <=? b) && (b <=? upper d) then
    let cp := Z.lor (Z.shiftl (code_point d) 6) (Z.land b 0x3F) in
    if bytes_seen d + 1 =? bytes_needed d then (start, [cp])
    else (mkDecoder cp (bytes_seen d + 1) (bytes_needed d) 0x80 0xBF, [])
  else
    let '(d', out) := lead_byte b in (d', 0xFFFD :: out).

Fixpoint utf8_decode (d : decoder) (bytes : list byte) : list Z :=
  match bytes with
  | [] => if bytes_needed d =? 0 then [] else [0xFFFD]
  | b :: rest => let '(d', out) := feed d b in out ++ utf8_decode d' rest
  end.

(** The decoder of [new TextDecoder()] drops a leading byte order mark. *)
Definition strip_bom (cps : list Z) : list Z :=
  match cps with
  | c :: rest => if c =? 0xFEFF then rest else cps
  | [] => []
  end.

(** new TextDecoder().decode(bytes) *)
Definition TextDecoder_decode (bytes : list byte) : DOMString :=
  flat_map utf16_encode (strip_bom (utf8_decode start bytes)).

(** A Unicode scalar value. *)
Definition is_scalar (c : Z) : bool :=
  (0 <=? c) && (c <? 0x110000) && negb ((0xD800 <=? c) && (c <=? 0xDFFF)).

(** The decoder run over the bytes of one code point. *)
Fixpoint feed_all (d : decoder) (bytes : list byte) : decoder * list Z :=
  match bytes with
  | [] => (d, [])
  | b :: rest =>
      let '(d', out) := feed d b in
      let '(d'', out') := feed_all d' rest in (d'', out ++ out')
  end.

(** The bytes of the encoding of a code point above U+007F except the
    last one; they depend on the code point without its six low bits. *)
Definition lead_bytes (high : Z) : list byte :=
  if high <? 0x20 then [ToUint8 (Z.lor 0xC0 high)]
  else if high <? 0x400 then
    [ToUint8 (Z.lor 0xE0 (Z.shiftr high 6));
     ToUint8 (Z.lor 0x80 (Z.land high 0x3F))]
  else
    [ToUint8 (Z.lor 0xF0 (Z.shiftr high 12));
     ToUint8 (Z.lor 0x80 (Z.land (Z.shiftr high 6) 0x3F));
     ToUint8 (Z.lor 0x80 (Z.land high 0x3F))].

(** A decoder that has read [high] and waits for one last byte. *)
Definition awaits_last (high : Z) (d : decoder) : bool :=
  (code_point d =? high) && (bytes_seen d + 1 =? bytes_needed d)
  && negb (bytes_needed d =? 0) && (lower d =? 0x80) && (upper d =? 0xBF).

(** Checks on single values, each one run over a whole range below. *)
Definition ascii_ok (c : Z) : bool :=
  match feed_all start (utf8_encode c) with
  | (d, [c']) => (c' =? c) && (bytes_needed d =? 0)
  | _ => false
  end.

Definition lead_bytes_ok (high : Z) : bool :=
  ((0x360 <=? high) && (high <? 0x380)) ||
  match feed_all start (lead_bytes high) with
  | (d, []) => awaits_last high d
  | _ => false
  end.

Definition last_byte_ok (low : Z) : bool :=
  let b := byte_value (ToUint8 (Z.lor 0x80 low)) in
  (0x80 <=? b) && (b <=? 0xBF) && (Z.land b 0x3F =? low).

End Unicode.

(** ** The Web Crypto operations the client calls *)

(** [crypto.subtle] for ECDH over P-256 and AES-GCM.  A private key is the
    scalar the generator draws, a public key is the base point multiplied
    by it, and the AES key ECDH derives is read off the product of the own
    scalar with the peer's point. *)
Record SubtleCrypto : Type := {
  scalar : Type;
  point : Type;
  aes_key : Type;
  base_point : point;
  scalar_mul : scalar -> point -> point;
  exportKey_raw : point -> list byte;
  importKey_raw : list byte -> option point;
  aes_of_point : point -> aes_key;
  aes_gcm_encrypt : aes_key -> list byte -> list byte -> list byte;
  aes_gcm_decrypt : aes_key -> list byte -> list byte -> option (list byte)
}.

(** What the client relies on: multiplications by two scalars commute, a
    raw export imports back to the same point, and AES-GCM opens what it
    sealed under the same key and iv. *)
Record SubtleCryptoLaws (W : SubtleCrypto) : Prop := {
  scalar_mul_comm : forall a b P,
    scalar_mul W a (scalar_mul W b P) = scalar_mul W b (scalar_mul W a P);
  import_export : forall P, importKey_raw W (exportKey_raw W P) = Some P;
  aes_gcm_open_seal : forall k iv m,
    aes_gcm_decrypt W k iv (aes_gcm_encrypt W k iv m) = Some m
}.

(** ** The browser client *)

Module Browser.

(** { iv: number[]; data: number[] } *)
Record envelope : Type := mkEnvelope {
  iv : list Z;
  data : list Z
}.

(** type ChatMessage, with the sender's key possibly missing; [Other] is a
    message of any other type. *)
Inductive ChatMessage : Type :=
| Init (sessionId : string)
| PublicKey (for_ : string) (key : string)
| Message (from : string) (ciphertext : envelope) (senderPublicKey : option string)
| Other.

(** The three object literals the client passes to [ws.send]. *)
Inductive frame : Type :=
| send_publicKey (key : string)
| send_getPublicKey (for_ : string)
| send_message (to : string) (ciphertext : envelope).

(** The text of a list item of [messages]:
    [[senderId]: plaintext] or [To [recipientId]: msg]. *)
Inductive li : Type :=
| received (senderId : string) (plaintext : DOMString)
| sent_to (recipientId : string) (msg : DOMString).

(** ToString of a value that should be a string. *)
Definition ToString (v : option string) : string :=
  match v with
  | Some s => s
  | None => "undefined"
  end.

Definition is_space (c : ascii) : bool :=
  let n := N_of_ascii c in
  (((9 <=? n) && (n <=? 13)) || (n =? 32) || (n =? 160))%N.

Fixpoint trim_start (s : list ascii) : list ascii :=
  match s with
  | c :: rest => if is_space c then trim_start rest else s
  | [] => []
  end.

(** String.prototype.trim *)
Definition trim (s : string) : string :=
  string_of_list_ascii
    (rev (trim_start (rev (trim_start (list_ascii_of_string s))))).

Section Client.
Context (W : SubtleCrypto).

(** What the random sources return while one handler runs. *)
Record draws : Type := mkDraws {
  ecdh_scalar : scalar W;
  random_bytes : nat -> byte
}.

Record CryptoKeyPair : Type := mkKeyPair {
  privateKey : scalar W;
  publicKey : point W
}.

(** The values of the [peers] map. *)
Record Peer : Type := mkPeer {
  peer_publicKey : point W;
  sharedKey : aes_key W
}.

Definition generateECDHKeyPair (d : scalar W) : CryptoKeyPair :=
  mkKeyPair d (scalar_mul W d (base_point W)).

Definition exportPublicKey (key : point W) : string :=
  Base64.btoa (exportKey_raw W key).

Definition importPublicKey (base64Key : string) : completion (point W) :=
  match Base64.atob base64Key with
  | None => Throw InvalidCharacterError
  | Some binary =>
      match importKey_raw W binary with
      | Some key => Normal key
      | None => Throw DataError
      end
  end.

Definition deriveSharedKey (privateKey : scalar W) (publicKey : point W)
    : aes_key W :=
  aes_of_point W (scalar_mul W privateKey publicKey).

Definition encryptWithKey (key : aes_key W) (plaintext : DOMString)
    (rnd : nat -> byte) : envelope :=
  let iv := getRandomValues (Uint8Array_new 12) rnd in
  let encoded := Unicode.TextEncoder_encode plaintext in
  let ciphertext := aes_gcm_encrypt W key iv encoded in
  mkEnvelope (Array_from iv) (Array_from ciphertext).

Definition decryptWithKey (key : aes_key W) (encrypted : envelope)
    : completion DOMString :=
  match aes_gcm_decrypt W key (Uint8Array_from (iv encrypted))
                        (Uint8Array_from (data encrypted)) with
  | Some plaintext => Normal (Unicode.TextDecoder_decode plaintext)
  | None => Throw OperationError
  end.

(** The variables of the script and the parts of the page it touches;
    [wire] is what has been passed to [ws.send], [rejections] the errors
    of the handlers that ended by throwing. *)
Record Page : Type := mkPage {
  sessionId : option string;
  myECDHKeyPair : option CryptoKeyPair;
  peers : gmap string Peer;
  myIdText : string;
  recipientInput : string;
  messageInput : DOMString;
  messages : list li;
  wire : list frame;
  rejections : list error
}.

Definition set_sessionId (v : string) (p : Page) : Page :=
  mkPage (Some v) (myECDHKeyPair p) (peers p) v (recipientInput p)
         (messageInput p) (messages p) (wire p) (rejections p).

Definition set_myECDHKeyPair (kp : CryptoKeyPair) (p : Page) : Page :=
  mkPage (sessionId p) (Some kp) (peers p) (myIdText p) (recipientInput p)
         (messageInput p) (messages p) (wire p) (rejections p).

Definition peers_set (k : string) (v : Peer) (p : Page) : Page :=
  mkPage (sessionId p) (myECDHKeyPair p) (<[k := v]> (peers p)) (myIdText p)
         (recipientInput p) (messageInput p) (messages p) (wire p) (rejections p).

Definition ws_send (f : frame) (p : Page) : Page :=
  mkPage (sessionId p) (myECDHKeyPair p) (peers p) (myIdText p) (recipientInput p)
         (messageInput p) (messages p) (wire p ++ [f]) (rejections p).

Definition appendChild (item : li) (p : Page) : Page :=
  mkPage (sessionId p) (myECDHKeyPair p) (peers p) (myIdText p) (recipientInput p)
         (messageInput p) (messages p ++ [item]) (wire p) (rejections p).

Definition reject (e : error) (p : Page) : Page :=
  mkPage (sessionId p) (myECDHKeyPair p) (peers p) (myIdText p) (recipientInput p)
         (messageInput p) (messages p) (wire p) (rejections p ++ [e]).

Definition set_recipientInput (v : string) (p : Page) : Page :=
  mkPage (sessionId p) (myECDHKeyPair p) (peers p) (myIdText p) v
         (messageInput p) (messages p) (wire p) (rejections p).

Definition set_messageInput (v : DOMString) (p : Page) : Page :=
  mkPage (sessionId p) (myECDHKeyPair p) (peers p) (myIdText p) (recipientInput p)
         v (messages p) (wire p) (rejections p).

(** An async function between two awaits runs without interruption on the
    page as it is then; at an await it leaves a continuation behind.  A
    continuation, when resumed, changes the page and leaves behind the
    continuations that are then waiting (none when the function is done). *)
Inductive task : Type :=
| Await (resume : Page -> Page * list task).

Definition resume (t : task) : Page -> Page * list task :=
  match t with Await k => k end.

Definition done (p : Page) : Page * list task := (p, []).
Definition await (p : Page) (k : Page -> Page * list task) : Page * list task :=
  (p, [Await k]).
Definition throw (e : error) (p : Page) : Page * list task := (reject e p, []).

(** async function sendMessage(recipientId) *)
Definition sendMessage (recipientId : string) (rnd : nat -> byte) (p : Page)
    : Page * list task :=
  let msg := messageInput p in
  match peers p !! recipientId with
  | None => done p
  | Some peer =>
      match msg with
      | [] => done p
      | _ =>
          let encrypted := encryptWithKey (sharedKey peer) msg rnd in
          await p (fun p =>
            done (appendChild (sent_to recipientId msg)
                    (ws_send (send_message recipientId encrypted) p)))
      end
  end.

(** The last part of the [message] branch of the handler: decrypt and
    display. *)
Definition decrypt_and_display (senderId : string) (ciphertext : envelope)
    (p : Page) : Page * list task :=
  match peers p !! senderId with
  | None => throw TypeError p
  | Some peer =>
      match decryptWithKey (sharedKey peer) ciphertext with
      | Throw e => await p (throw e)
      | Normal plaintext =>
          await p (fun p => done (appendChild (received senderId plaintext) p))
      end
  end.

(** The private key line 120 and line 131 read from [myECDHKeyPair] after
    an await; reading a property of [null] throws. *)
Definition with_privateKey (p : Page) (k : scalar W -> Page * list task)
    : Page * list task :=
  match myECDHKeyPair p with
  | Some kp => k (privateKey kp)
  | None => throw TypeError p
  end.

(** ws.onmessage = async (event) => ...; [data] is what
    [JSON.parse(event.data)] produces, [None] when it throws. *)
Definition onmessage (data : option ChatMessage) (r : draws) (p : Page)
    : Page * list task :=
  match data with
  | None => throw SyntaxError p
  | Some (Init sid) =>
      let p := set_sessionId sid p in
      let kp := generateECDHKeyPair (ecdh_scalar r) in
      await p (fun p =>
        let p := set_myECDHKeyPair kp p in
        let pubKey := exportPublicKey (publicKey kp) in
        await p (fun p => done (ws_send (send_publicKey pubKey) p)))
  | Some (PublicKey peerId key) =>
      match myECDHKeyPair p with
      | None => done p
      | Some _ =>
          match importPublicKey key with
          | Throw e => await p (throw e)
          | Normal pubKey =>
              await p (fun p =>
                with_privateKey p (fun d =>
                  let sharedKey := deriveSharedKey d pubKey in
                  await p (fun p =>
                    let p := peers_set peerId (mkPeer pubKey sharedKey) p in
                    sendMessage peerId (random_bytes r) p)))
          end
      end
  | Some (Message senderId ciphertext senderPublicKey) =>
      match peers p !! senderId, myECDHKeyPair p with
      | None, Some _ =>
          match importPublicKey (ToString senderPublicKey) with
          | Throw e => await p (throw e)
          | Normal pubKey =>
              await p (fun p =>
                with_privateKey p (fun d =>
                  let sharedKey := deriveSharedKey d pubKey in
                  await p (fun p =>
                    let p := peers_set senderId (mkPeer pubKey sharedKey) p in
                    decrypt_and_display senderId ciphertext p)))
          end
      | _, _ => decrypt_and_display senderId ciphertext p
      end
  | Some Other => done p
  end.

(** sendButton.addEventListener("click", ...) *)
Definition onclick (r : draws) (p : Page) : Page * list task :=
  let recipientId := trim (recipientInput p) in
  if String.eqb recipientId "" then done p
  else
    match peers p !! recipientId with
    | None => done (ws_send (send_getPublicKey recipientId) p)
    | Some _ => sendMessage recipientId (random_bytes r) p
    end.

(** The tab: the page and the continuations waiting at an await. *)
Record Tab : Type := mkTab {
  page : Page;
  waiting : list task
}.

Definition blank : Page := mkPage None None ∅ "" "" [] [] [] [].
Definition opened : Tab := mkTab blank [].

Inductive event : Type :=
| ws_message (data : option ChatMessage) (r : draws)
| click (r : draws)
| type_recipient (v : string)
| type_message (v : DOMString)
| settle (i : nat).

Definition run_on (t : Tab) (others : list task) (h : Page -> Page * list task)
    : Tab :=
  let '(p, spawned) := h (page t) in mkTab p (others ++ spawned).

(** One turn of the event loop; [settle i] resumes the [i]-th waiting
    continuation and is not possible when there is none. *)
Definition step (t : Tab) (e : event) : option Tab :=
  match e with
  | ws_message data r => Some (run_on t (waiting t) (onmessage data r))
  | click r => Some (run_on t (waiting t) (onclick r))
  | type_recipient v => Some (mkTab (set_recipientInput v (page t)) (waiting t))
  | type_message v => Some (mkTab (set_messageInput v (page t)) (waiting t))
  | settle i =>
      k ← waiting t !! i;
      Some (run_on t (delete i (waiting t)) (resume k))
  end.

Fixpoint run (t : Tab) (es : list event) : option Tab :=
  match es with
  | [] => Some t
  | e :: rest => t' ← step t e; run t' rest
  end.

Inductive reachable : Tab -> Prop :=
| reachable_opened : reachable opened
| reachable_step t e t' : reachable t -> step t e = Some t' -> reachable t'.

(** What may be written to the socket: the export of the public key of a
    generated pair, a request that holds a peer id, or the envelope
    [encryptWithKey] produced under a key derived by ECDH. *)
Definition allowed (f : frame) : Prop :=
  (exists d, f = send_publicKey
                   (exportPublicKey (publicKey (generateECDHKeyPair d)))) \/
  (exists peerId, f = send_getPublicKey peerId) \/
  (exists to d P text rnd,
     f = send_message to (encryptWithKey (deriveSharedKey d P) text rnd)).

Definition derived (peer : Peer) : Prop :=
  exists d, sharedKey peer = deriveSharedKey d (peer_publicKey peer).

Definition page_ok (p : Page) : Prop :=
  Forall allowed (wire p) /\
  forall peerId peer, peers p !! peerId = Some peer -> derived peer.

(** A continuation that keeps [page_ok], and so do those it leaves. *)
Inductive safe : task -> Prop :=
| safe_Await k :
    (forall p, page_ok p -> page_ok (k p).1 /\ Forall safe (k p).2) ->
    safe (Await k).

Definition safe_handler (h : Page -> Page * list (task)) : Prop :=
  forall p, page_ok p -> page_ok (h p).1 /\ Forall safe (h p).2.

(** One page has grown into another: what was sent, displayed and
    reported is still there, in the same order; no peer, key pair or
    session id has been forgotten. *)
Definition grows (p q : Page) : Prop :=
  wire p `prefix_of` wire q /\
  messages p `prefix_of` messages q /\
  rejections p `prefix_of` rejections q /\
  (forall k, is_Some (peers p !! k) -> is_Some (peers q !! k)) /\
  (is_Some (myECDHKeyPair p) -> is_Some (myECDHKeyPair q)) /\
  (is_Some (sessionId p) -> is_Some (sessionId q)).

(** The two input fields hold what they held. *)
Definition same_inputs (p q : Page) : Prop :=
  recipientInput q = recipientInput p /\ messageInput q = messageInput p.

(** A continuation under which the page only grows and the inputs stay,
    and so do the continuations it leaves. *)
Inductive steady : task -> Prop :=
| steady_Await k :
    (forall p, grows p (k p).1 /\ same_inputs p (k p).1 /\ Forall steady (k p).2) ->
    steady (Await k).

Definition steady_handler (h : Page -> Page * list task) : Prop :=
  forall p, grows p (h p).1 /\ same_inputs p (h p).1 /\ Forall steady (h p).2.

(** A continuation that records no peer as long as there is no key pair:
    resumed on a page without key pair and without peers, it either sets
    the key pair or leaves the page without peers, and then the
    continuations it leaves are of the same kind. *)
Inductive careful : task -> Prop :=
| careful_Await k :
    (forall p, myECDHKeyPair p = None -> peers p = ∅ ->
       is_Some (myECDHKeyPair (k p).1) \/
       (peers (k p).1 = ∅ /\ Forall careful (k p).2)) ->
    careful (Await k).

Definition careful_handler (h : Page -> Page * list task) : Prop :=
  forall p, myECDHKeyPair p = None -> peers p = ∅ ->
    is_Some (myECDHKeyPair (h p).1) \/
    (peers (h p).1 = ∅ /\ Forall careful (h p).2).

(** The numbers of a list are byte values. *)
Definition byte_values (numbers : list Z) : Prop :=
  Forall (fun x => 0 <= x < 256) numbers.

End Client.

Arguments ws_message {W} data r.
Arguments click {W} r.
Arguments type_recipient {W} v.
Arguments type_message {W} v.
Arguments settle {W} i.

End Browser.

(** ** A small instance of the interface *)

(** A small instance of the interface, to run the client on: points are
    bytes, a scalar acts by multiplication modulo 251, the raw format is
    the byte behind a 04 tag, and the cipher prefixes the key. *)
Definition toy_crypto : SubtleCrypto := {|
  scalar := N;
  point := byte;
  aes_key := byte;
  base_point := "002"%byte;
  scalar_mul := fun a P => ToUint8 ((Z.of_N a * byte_value P) mod 251);
  exportKey_raw := fun P => ["004"%byte; P];
  importKey_raw := fun bs =>
    match bs with
    | [tag; P] => if Byte.eqb tag "004"%byte then Some P else None
    | _ => None
    end;
  aes_of_point := fun P => P;
  aes_gcm_encrypt := fun k iv m => k :: m;
  aes_gcm_decrypt := fun k iv c =>
    match c with
    | tag :: m => if Byte.eqb tag k then Some m else None
    | [] => None
    end
|}.

(** A session of the client on [toy_crypto]: it is given an id, publishes
    its key and asks for a peer's key. *)
Definition toy_draws : Browser.draws toy_crypto :=
  Browser.mkDraws toy_crypto 5%N (fun _ => "007"%byte).

Definition toy_session : list (Browser.event toy_crypto) :=
  [Browser.ws_message (Some (Browser.Init "100000")) toy_draws;
   Browser.settle 0; Browser.settle 0;
   Browser.type_recipient " 654321 ";
   Browser.click toy_draws].

(** ... and then the relay answers with the key of "654321". *)
Definition toy_key_session : list (Browser.event toy_crypto) :=
  toy_session ++
  [Browser.ws_message
     (Some (Browser.PublicKey "654321"
              (Browser.exportPublicKey toy_crypto "022"%byte))) toy_draws;
   Browser.settle 0; Browser.settle 0].

(** * Properties of the relay *)

Section RelayFacts.
Import Relay.

Lemma on_message_registry_cases sessionId ws data clients :
  registry (on_message sessionId ws data clients) = clients \/
  exists c key, clients !! sessionId = Some c /\
    registry (on_message sessionId ws data clients)
    = <[sessionId := mkClient (id c) (socket c) key]> clients.
Proof.
  unfold on_message, try_block.
  destruct data as [parsed|]; [|by left].
  destruct parsed; simpl; try by left.
  destruct (last_member "type" members) as [[]|]; simpl; try by left.
  destruct (String.eqb s "publicKey").
  { destruct (clients !! sessionId) as [c|] eqn:Hc; simpl; [right; eauto|by left]. }
  destruct (String.eqb s "getPublicKey").
  { destruct (truthy _); by left. }
  destruct (String.eqb s "message"); [|by left].
  destruct (Map_get _ _); by left.
Qed.

Lemma on_message_registry sessionId ws data clients :
  keyed_by_id clients -> keyed_by_id (registry (on_message sessionId ws data clients)).
Proof.
  intros Hk.
  destruct (on_message_registry_cases sessionId ws data clients)
    as [->|(c & key & Hc & ->)]; [exact Hk|].
  intros k c'. destruct (decide (k = sessionId)) as [->|Hne].
  - rewrite lookup_insert_eq. intros [= <-]. simpl. eauto.
  - rewrite lookup_insert_ne by done. apply Hk.
Qed.

Lemma reachable_keyed_by_id s : reachable s -> keyed_by_id (clients s).
Proof.
  induction 1 as [|s e s' _ IH Hstep].
  - intros k c. simpl. by rewrite lookup_empty.
  - destruct e as [ws m|ws data|ws]; simpl in Hstep.
    + destruct (open s !! ws); [done|]. case_bool_decide; [|done].
      injection Hstep as <-. simpl. intros k c.
      destruct (decide (k = generateSessionId m)) as [->|Hne].
      * rewrite lookup_insert_eq. by intros [= <-].
      * rewrite lookup_insert_ne by done. apply IH.
    + destruct (open s !! ws) as [sid|]; [|done]. injection Hstep as <-.
      simpl. by apply on_message_registry.
    + destruct (open s !! ws) as [sid|]; [|done]. injection Hstep as <-.
      simpl. intros k c. unfold on_close. rewrite lookup_delete. case_decide; [done|apply IH].
Qed.


Lemma unrecognised_outcome sessionId ws data clients :
  recognised data = false ->
  exists entry,
    on_message sessionId ws data clients = mkOutcome clients [] [entry].
Proof.
  unfold recognised, on_message, try_block. intros Hr.
  destruct data as [parsed|]; [|by eexists].
  destruct parsed; simpl; try by eexists.
  destruct (last_member "type" members) as [[]|]; simpl; try by eexists.
  apply orb_false_elim in Hr as [Hr ->]. apply orb_false_elim in Hr as [-> ->].
  by eexists.
Qed.

Lemma get_type_object kind parsed :
  get "type" parsed = Normal (Some (JStr kind)) ->
  exists members, parsed = JObj members /\
    last_member "type" members = Some (JStr kind).
Proof.
  destruct parsed; simpl; try discriminate. intros [= H]. eauto.
Qed.

Lemma step_frame s ws sid data :
  open s !! ws = Some sid ->
  step s (Frame ws data)
  = Some (absorb s (open s) (on_message sid ws data (clients s))).
Proof. intros H. simpl. by rewrite H. Qed.

Lemma run_reachable es : forall s s',
  reachable s -> run s es = Some s' -> reachable s'.
Proof.
  induction es as [|e es IH]; simpl; intros s s' Hs Hrun.
  - by injection Hrun as <-.
  - destruct (step s e) as [s1|] eqn:He; [|done].
    eapply IH; [|exact Hrun]. by eapply reachable_step.
Qed.

(** Runs the handler on a frame whose [type] member is known: the frame
    is an object [JObj members], and the switch takes the case of the
    type. *)
Ltac dispatch Hopen Hty :=
  apply get_type_object in Hty as (members & -> & Hty);
  eexists; split; [by eapply step_frame|];
  unfold on_message, try_block, field; simpl; rewrite Hty; simpl.









(** C7, as stated, fails: the session of an open connection is gone from
    the registry (another connection with the same id closed), and its
    publish-public-key is reported through console.error, not as a
    warning. *)
Lemma publish_after_removal_logs_error :
  exists s s',
    run boot [Connection 1%nat 0; Connection 2%nat 0; Close 1%nat] = Some s /\
    open s !! 2%nat = Some "100000" /\
    clients s !! "100000" = None /\
    step s (Frame 2%nat (Some (publish (JStr "BEs=")))) = Some s' /\
    clients s' = clients s /\
    console s = [] /\
    console s' = [console_error "Error parsing message:" TypeError].
Proof.
  eexists _, _. split; [reflexivity|].
  repeat split; vm_compute; reflexivity.
Qed.

(** C7, amended: a publish-public-key overwrites the public key stored for
    the sender's session id and leaves the entry's id and socket, every
    other entry, the open connections and the sockets' output unchanged,
    with nothing logged; when no entry is stored under the sender's id the
    registry is unchanged, the TypeError is caught by the handler and the
    only trace is one console.error entry. *)
Theorem relay_publish s ws sid parsed :
  open s !! ws = Some sid ->
  get "type" parsed = Normal (Some (JStr "publicKey")) ->
  exists s',
    step s (Frame ws (Some parsed)) = Some s' /\
    open s' = open s /\ outbox s' = outbox s /\
    (forall k, k <> sid -> clients s' !! k = clients s !! k) /\
    match clients s !! sid with
    | Some c =>
        clients s' !! sid = Some (mkClient (id c) (socket c) (field "key" parsed)) /\
        console s' = console s
    | None =>
        clients s' = clients s /\
        console s' = console s ++ [console_error "Error parsing message:" TypeError]
    end.
Proof.
  intros Hopen Hty. dispatch Hopen Hty.
  destruct (clients s !! sid) as [c|] eqn:Hc; simpl.
  - repeat split; try by rewrite app_nil_r.
    + intros k Hne. by rewrite lookup_insert_ne.
    + by rewrite lookup_insert_eq.
  - repeat split. by rewrite app_nil_r.
Qed.

Lemma relay_publish_witness :
  exists s sid parsed,
    open s !! 1%nat = Some sid /\
    get "type" parsed = Normal (Some (JStr "publicKey")) /\
    exists s',
      step s (Frame 1%nat (Some parsed)) = Some s' /\
      open s' = open s /\ outbox s' = outbox s /\
      (forall k, k <> sid -> clients s' !! k = clients s !! k) /\
      match clients s !! sid with
      | Some c =>
          clients s' !! sid
          = Some (mkClient (id c) (socket c) (field "key" parsed)) /\
          console s' = console s
      | None =>
          clients s' = clients s /\
          console s' = console s ++ [console_error "Error parsing message:" TypeError]
      end.
Proof.
  exists (mkServer {[ "100000" := mkClient "100000" 1%nat None ]}
                   {[ 1%nat := "100000" ]} [] []),
         "100000", (publish (JStr "BEs=")).
  split; [reflexivity|]. split; [reflexivity|].
  apply relay_publish; reflexivity.
Defined.

(** C8: a frame that is not valid JSON, or whose kind is none of
    publicKey, getPublicKey and message, leaves one entry on the console
    and nothing else: the registry, the open connections (the offending
    one included) and the sockets' output are unchanged, and the event
    loop goes on. *)
Theorem relay_ignores_unrecognised s ws sid data :
  open s !! ws = Some sid ->
  recognised data = false ->
  exists s' entry,
    step s (Frame ws data) = Some s' /\
    clients s' = clients s /\ open s' = open s /\ outbox s' = outbox s /\
    console s' = console s ++ [entry].
Proof.
  intros Hopen Hr.
  destruct (unrecognised_outcome sid ws data (clients s) Hr) as [entry He].
  eexists _, entry. split; [by eapply step_frame|].
  rewrite He. simpl. by rewrite app_nil_r.
Qed.

Lemma relay_ignores_unrecognised_witness :
  exists s sid data,
    open s !! 1%nat = Some sid /\ recognised data = false /\
    exists s' entry,
      step s (Frame 1%nat data) = Some s' /\
      clients s' = clients s /\ open s' = open s /\ outbox s' = outbox s /\
      console s' = console s ++ [entry].
Proof.
  exists (mkServer {[ "100000" := mkClient "100000" 1%nat None ]}
                   {[ 1%nat := "100000" ]} [] []),
         "100000", (Some (JObj [("type", JStr "ping")])).
  split; [reflexivity|]. split; [reflexivity|].
  apply (relay_ignores_unrecognised _ _ "100000"); reflexivity.
Defined.

End RelayFacts.

(** * Properties of the encodings *)

Section Bytes.

Lemma byte_value_range b : 0 <= byte_value b < 256.
Proof.
  unfold byte_value. pose proof (Byte.to_N_bounded b). lia.
Qed.

Lemma land_0xFF z : Z.land z 0xFF = z mod 256.
Proof. apply (Z.land_ones z 8). lia. Qed.

Lemma ToUint8_byte_value b : ToUint8 (byte_value b) = b.
Proof.
  unfold ToUint8. pose proof (byte_value_range b) as Hb.
  rewrite land_0xFF, Z.mod_small by exact Hb.
  unfold byte_value. rewrite N2Z.id. by rewrite Byte.of_to_N.
Qed.

Lemma byte_value_ToUint8 z : 0 <= z < 256 -> byte_value (ToUint8 z) = z.
Proof.
  intros Hz. unfold ToUint8. rewrite land_0xFF, Z.mod_small by exact Hz.
  destruct (Byte.of_N (Z.to_N z)) as [b|] eqn:Hb.
  - apply Byte.to_of_N in Hb. unfold byte_value. rewrite Hb. lia.
  - apply Byte.of_N_None_iff in Hb. lia.
Qed.

Lemma Uint8Array_from_Array_from a : Uint8Array_from (Array_from a) = a.
Proof.
  unfold Uint8Array_from, Array_from. rewrite map_map.
  induction a as [|b a IH]; simpl; [done|].
  by rewrite ToUint8_byte_value, IH.
Qed.

End Bytes.

Lemma forall_below_sound p : forall lo f,
  forall_below p lo f = true -> forall c, lo <= c < lo + Zpos p -> f c = true.
Proof.
  induction p as [q IH|q IH|]; simpl; intros lo f H c Hc.
  - apply andb_prop in H as [H H2]. apply andb_prop in H as [H0 H1].
    destruct (decide (c = lo)) as [->|]; [done|].
    destruct (decide (c < lo + 1 + Zpos q)).
    + apply (IH _ _ H1). lia.
    + apply (IH _ _ H2). lia.
  - apply andb_prop in H as [H1 H2].
    destruct (decide (c < lo + Zpos q)).
    + apply (IH _ _ H1). lia.
    + apply (IH _ _ H2). lia.
  - by replace c with lo by lia.
Qed.

Section UnicodeFacts.
Import Unicode.

Lemma utf8_decode_app bytes : forall d rest,
  utf8_decode d (bytes ++ rest)
  = snd (feed_all d bytes) ++ utf8_decode (fst (feed_all d bytes)) rest.
Proof.
  induction bytes as [|b bytes IH]; simpl; intros d rest; [done|].
  destruct (feed d b) as [d' out]. rewrite IH.
  destruct (feed_all d' bytes) as [d'' out']. simpl. by rewrite app_assoc.
Qed.

Lemma feed_all_app bytes : forall d rest,
  feed_all d (bytes ++ rest)
  = let '(d', out) := feed_all d bytes in
    let '(d'', out') := feed_all d' rest in (d'', out ++ out').
Proof.
  induction bytes as [|b bytes IH]; simpl; intros d rest.
  - by destruct (feed_all d rest).
  - destruct (feed d b) as [d1 out1]. rewrite IH.
    destruct (feed_all d1 bytes) as [d2 out2].
    destruct (feed_all d2 rest) as [d3 out3]. by rewrite app_assoc.
Qed.

Lemma utf8_encode_split c :
  0x80 <= c ->
  utf8_encode c
  = lead_bytes (Z.shiftr c 6) ++ [ToUint8 (Z.lor 0x80 (Z.land c 0x3F))].
Proof.
  intros Hc. unfold utf8_encode, lead_bytes.
  rewrite !Z.shiftr_shiftr by lia. simpl Z.add.
  rewrite (Z.shiftr_div_pow2 c 6) by lia.
  destruct (Z.ltb_spec c 0x80); [lia|].
  destruct (Z.ltb_spec c 0x800), (Z.ltb_spec (c / 2 ^ 6) 0x20);
    try (Z.div_mod_to_equations; lia); [done|].
  destruct (Z.ltb_spec c 0x10000), (Z.ltb_spec (c / 2 ^ 6) 0x400);
    try (Z.div_mod_to_equations; lia); done.
Qed.

Lemma join_bits c : Z.lor (Z.shiftl (Z.shiftr c 6) 6) (Z.land c 0x3F) = c.
Proof.
  change 0x3F with (Z.ones 6).
  rewrite <- Z.ldiff_ones_r by lia. apply Z.lor_ldiff_and.
Qed.

Lemma low_bits_range c : 0 <= Z.land c 0x3F < 64.
Proof.
  change 0x3F with (Z.ones 6). rewrite Z.land_ones by lia.
  apply Z.mod_pos_bound. lia.
Qed.

Lemma feed_last high low d :
  0 <= low < 64 -> awaits_last high d = true ->
  feed d (ToUint8 (Z.lor 0x80 low)) = (start, [Z.lor (Z.shiftl high 6) low]).
Proof.
  intros Hlow Hd.
  assert (Hb : last_byte_ok low = true).
  { apply (forall_below_sound 64 0 last_byte_ok); [by vm_compute|lia]. }
  unfold last_byte_ok in Hb. unfold awaits_last in Hd.
  repeat (apply andb_prop in Hd as [Hd ?]). repeat (apply andb_prop in Hb as [Hb ?]).
  unfold feed.
  destruct (Z.eqb_spec (bytes_needed d) 0); [done|].
  replace (lower d) with 0x80 by lia. replace (upper d) with 0xBF by lia.
  rewrite Hb. replace (byte_value (ToUint8 (Z.lor 0x80 low)) <=? 0xBF) with true by lia.
  simpl. replace (bytes_seen d + 1 =? bytes_needed d) with true by lia.
  replace (code_point d) with high by lia.
  by replace (Z.land (byte_value (ToUint8 (Z.lor 0x80 low))) 0x3F) with low by lia.
Qed.

Lemma feed_all_encode c :
  is_scalar c = true -> feed_all start (utf8_encode c) = (start, [c]).
Proof.
  intros Hc. unfold is_scalar in Hc.
  destruct (Z.lt_ge_cases c 0x80) as [Hsmall|Hbig].
  - assert (H : ascii_ok c = true).
    { apply (forall_below_sound 0x80 0 ascii_ok); [by vm_compute|lia]. }
    unfold ascii_ok in H.
    assert (Hone : utf8_encode c = [ToUint8 c]).
    { unfold utf8_encode. by destruct (Z.ltb_spec c 0x80); [|lia]. }
    rewrite Hone in *. simpl in *. unfold feed in *. simpl in *.
    unfold lead_byte in *.
    rewrite byte_value_ToUint8 in * by lia.
    destruct (Z.leb_spec c 0x7F); [|lia]. by rewrite app_nil_r.
  - assert (H : lead_bytes_ok (Z.shiftr c 6) = true).
    { apply (forall_below_sound 0x43FE 2 lead_bytes_ok).
      - vm_cast_no_check (eq_refl true).
      - rewrite Z.shiftr_div_pow2 by lia. Z.div_mod_to_equations. lia. }
    unfold lead_bytes_ok in H.
    rewrite utf8_encode_split, feed_all_app by done.
    destruct (feed_all start (lead_bytes (Z.shiftr c 6))) as [d out].
    apply orb_prop in H as [H|H].
    { rewrite Z.shiftr_div_pow2 in H by lia. Z.div_mod_to_equations. lia. }
    destruct out; [|done]. simpl.
    rewrite (feed_last (Z.shiftr c 6)) by (apply low_bits_range || done).
    by rewrite join_bits.
Qed.

Lemma utf8_decode_encode cps :
  Forall (fun c => is_scalar c = true) cps ->
  utf8_decode start (flat_map utf8_encode cps) = cps.
Proof.
  induction 1 as [|c cps Hc _ IH]; simpl; [done|].
  rewrite utf8_decode_app, (feed_all_encode c Hc). simpl. by rewrite IH.
Qed.

(** Induction on strings that follows [scalar_values]. *)
Lemma code_units_ind (P : DOMString -> Prop) :
  P [] ->
  (forall u l rest, P rest -> P (l :: rest) -> P (u :: l :: rest)) ->
  (forall u, P [u]) ->
  forall s, P s.
Proof.
  intros Hnil Hstep Hone s.
  enough (H : P s /\ forall u, P (u :: s)) by apply H.
  induction s as [|l rest [IH1 IH2]]; [by split|].
  split; [apply IH2|]. intros u. by apply Hstep.
Qed.

Lemma scalar_values_cons u rest :
  scalar_values (u :: rest)
  = if is_lead u then
      match rest with
      | l :: rest' =>
          if is_trail l
          then 0x10000 + (u - 0xD800) * 0x400 + (l - 0xDC00) :: scalar_values rest'
          else 0xFFFD :: scalar_values rest
      | [] => [0xFFFD]
      end
    else if is_trail u then 0xFFFD :: scalar_values rest
    else u :: scalar_values rest.
Proof. reflexivity. Qed.

Lemma well_formed_cons u rest :
  well_formed (u :: rest)
  = is_code_unit u &&
    if is_lead u then
      match rest with
      | l :: rest' => is_trail l && well_formed rest'
      | [] => false
      end
    else negb (is_trail u) && well_formed rest.
Proof. reflexivity. Qed.

Lemma scalar_values_scalar s :
  Forall (fun u => is_code_unit u = true) s ->
  Forall (fun c => is_scalar c = true) (scalar_values s).
Proof.
  induction s as [|u l rest IH1 IH2|u] using code_units_ind; intros Hs.
  - constructor.
  - inversion Hs as [|? ? Hu Hs']; subst.
    pose proof (IH2 Hs') as IH2'.
    inversion Hs' as [|? ? Hl Hs'']; subst.
    pose proof (IH1 Hs'') as IH1'.
    rewrite (scalar_values_cons u).
    unfold is_code_unit in Hu, Hl.
    destruct (is_lead u) eqn:Hlead.
    + destruct (is_trail l) eqn:Htrail.
      * constructor; [|exact IH1'].
        unfold is_lead in Hlead. unfold is_trail in Htrail. unfold is_scalar. lia.
      * constructor; [done|exact IH2'].
    + destruct (is_trail u) eqn:Htrail.
      * constructor; [done|exact IH2'].
      * constructor; [|exact IH2'].
        unfold is_lead in Hlead. unfold is_trail in Htrail. unfold is_scalar. lia.
  - inversion Hs as [|? ? Hu _]; subst. simpl.
    unfold is_code_unit in Hu.
    destruct (is_lead u) eqn:Hlead; [by repeat constructor|].
    destruct (is_trail u) eqn:Htrail; [by repeat constructor|].
    repeat constructor.
    unfold is_lead in Hlead. unfold is_trail in Htrail. unfold is_scalar. lia.
Qed.

Lemma well_formed_code_units s :
  well_formed s = true -> Forall (fun u => is_code_unit u = true) s.
Proof.
  induction s as [|u l rest IH1 IH2|u] using code_units_ind; intros Hs.
  - constructor.
  - unfold well_formed in Hs; fold well_formed in Hs.
    apply andb_prop in Hs as [Hu Hs]. constructor; [done|].
    destruct (is_lead u).
    + apply andb_prop in Hs as [Hl Hs]. constructor; [|by apply IH1].
      unfold is_trail in Hl. unfold is_code_unit. lia.
    + apply andb_prop in Hs as [_ Hs]. by apply IH2.
  - simpl in Hs. apply andb_prop in Hs as [Hu _]. by repeat constructor.
Qed.

Lemma utf16_encode_scalar_values s :
  well_formed s = true -> flat_map utf16_encode (scalar_values s) = s.
Proof.
  induction s as [|u l rest IH1 IH2|u] using code_units_ind; intros Hs.
  - done.
  - unfold well_formed in Hs; fold well_formed in Hs.
    apply andb_prop in Hs as [Hu Hs].
    rewrite (scalar_values_cons u).
    destruct (is_lead u) eqn:Hlead.
    + apply andb_prop in Hs as [Hl Hs]. rewrite Hl.
      cbn [flat_map]. rewrite (IH1 Hs).
      unfold is_lead in Hlead. unfold is_trail in Hl. unfold utf16_encode.
      destruct (Z.ltb_spec (65536 + (u - 55296) * 1024 + (l - 56320)) 65536); [lia|].
      simpl. f_equal; [|f_equal].
      * replace (65536 + (u - 55296) * 1024 + (l - 56320) - 65536)
          with ((l - 56320) + (u - 55296) * 1024) by lia.
        rewrite Z.div_add by lia. rewrite Z.div_small by lia. lia.
      * replace (65536 + (u - 55296) * 1024 + (l - 56320) - 65536)
          with ((l - 56320) + (u - 55296) * 1024) by lia.
        rewrite Z.mod_add by lia. rewrite Z.mod_small by lia. lia.
    + apply andb_prop in Hs as [Ht Hs]. apply negb_true_iff in Ht. rewrite Ht.
      cbn [flat_map]. rewrite (IH2 Hs). unfold utf16_encode.
      unfold is_code_unit in Hu.
      destruct (Z.ltb_spec u 65536); [done|lia].
  - simpl in Hs. apply andb_prop in Hs as [Hu Hs].
    simpl. destruct (is_lead u); [discriminate Hs|].
    apply andb_prop in Hs as [Ht _]. apply negb_true_iff in Ht. rewrite Ht.
    simpl. unfold utf16_encode. unfold is_code_unit in Hu.
    destruct (Z.ltb_spec u 65536); [done|lia].
Qed.

(** What decoding the encoding of a string gives in general: unpaired
    surrogates have become U+FFFD and a leading U+FEFF is gone. *)
Lemma decode_encode s :
  Forall (fun u => is_code_unit u = true) s ->
  TextDecoder_decode (TextEncoder_encode s)
  = flat_map utf16_encode (strip_bom (scalar_values s)).
Proof.
  intros Hs. unfold TextDecoder_decode, TextEncoder_encode.
  by rewrite utf8_decode_encode by by apply scalar_values_scalar.
Qed.

Lemma strip_bom_scalar_values s :
  well_formed s = true -> head s <> Some 0xFEFF ->
  strip_bom (scalar_values s) = scalar_values s.
Proof.
  destruct s as [|u rest]; [done|]. intros Hs Hhead.
  rewrite (well_formed_cons u) in Hs.
  apply andb_prop in Hs as [Hu Hs].
  rewrite (scalar_values_cons u).
  destruct (is_lead u) eqn:Hlead.
  - destruct rest as [|l rest]; [done|].
    apply andb_prop in Hs as [Hl Hs]. rewrite Hl. unfold strip_bom.
    unfold is_lead in Hlead. unfold is_trail in Hl.
    destruct (Z.eqb_spec (65536 + (u - 55296) * 1024 + (l - 56320)) 65279); [lia|done].
  - apply andb_prop in Hs as [Ht Hs]. apply negb_true_iff in Ht. rewrite Ht.
    unfold strip_bom. destruct (Z.eqb_spec u 65279) as [->|]; [|done].
    by destruct Hhead.
Qed.

(** A well-formed string that does not begin with a byte order mark
    survives encoding and decoding. *)
Lemma decode_encode_id s :
  well_formed s = true -> head s <> Some 0xFEFF ->
  TextDecoder_decode (TextEncoder_encode s) = s.
Proof.
  intros Hs Hhead.
  rewrite decode_encode by by apply well_formed_code_units.
  rewrite strip_bom_scalar_values by done.
  by apply utf16_encode_scalar_values.
Qed.

End UnicodeFacts.

Section Base64Facts.
Import Base64.

Lemma bytes_ind3 (P : list byte -> Prop) :
  P [] -> (forall a, P [a]) -> (forall a b, P [a; b]) ->
  (forall a b c rest, P rest -> P (a :: b :: c :: rest)) ->
  forall bs, P bs.
Proof.
  intros H0 H1 H2 H3 bs.
  enough (H : P bs /\ (forall a, P (a :: bs)) /\ forall a b, P (a :: b :: bs))
    by apply H.
  induction bs as [|c bs (IH0 & IH1 & IH2)]; [by repeat split|].
  split; [apply IH1|split; [intros a; apply IH2|intros a b; by apply H3]].
Qed.

Lemma char_of_facts v :
  0 <= v < 64 ->
  value_of (char_of v) = Some v /\
  is_whitespace (char_of v) = false /\ is_pad (char_of v) = false.
Proof.
  intros Hv.
  assert (H : char_ok v = true).
  { apply (forall_below_sound 64 0 char_ok); [by vm_compute|lia]. }
  unfold char_ok in H. destruct (value_of (char_of v)) as [v'|]; [|done].
  apply andb_prop in H as [H Hp]. apply andb_prop in H as [H Hw].
  apply negb_true_iff in Hp, Hw. apply Z.eqb_eq in H. by subst.
Qed.

Lemma sextets_range bs : Forall sextet (sextets bs).
Proof.
  induction bs as [|a|a b|a b c rest IH] using bytes_ind3; simpl.
  - constructor.
  - pose proof (byte_value_range a).
    repeat constructor; unfold sextet; Z.div_mod_to_equations; lia.
  - pose proof (byte_value_range a). pose proof (byte_value_range b).
    repeat constructor; unfold sextet; Z.div_mod_to_equations; lia.
  - pose proof (byte_value_range a). pose proof (byte_value_range b).
    pose proof (byte_value_range c).
    repeat (constructor; [unfold sextet; Z.div_mod_to_equations; lia|]).
    exact IH.
Qed.

Lemma regroup_first a b :
  0 <= a < 256 -> 0 <= b < 256 ->
  a / 4 * 4 + (a mod 4 * 16 + b / 16) / 16 = a.
Proof. intros. Z.div_mod_to_equations. lia. Qed.

Lemma regroup_first_tail a :
  0 <= a < 256 -> a / 4 * 4 + (a mod 4 * 16) / 16 = a.
Proof. intros. Z.div_mod_to_equations. lia. Qed.

Lemma regroup_second a b c :
  0 <= a < 256 -> 0 <= b < 256 -> 0 <= c < 256 ->
  (a mod 4 * 16 + b / 16) mod 16 * 16 + (b mod 16 * 4 + c / 64) / 4 = b.
Proof. intros. Z.div_mod_to_equations. lia. Qed.

Lemma regroup_second_tail a b :
  0 <= a < 256 -> 0 <= b < 256 ->
  (a mod 4 * 16 + b / 16) mod 16 * 16 + (b mod 16 * 4) / 4 = b.
Proof. intros. Z.div_mod_to_equations. lia. Qed.

Lemma regroup_third b c :
  0 <= b < 256 -> 0 <= c < 256 ->
  (b mod 16 * 4 + c / 64) mod 4 * 64 + c mod 64 = c.
Proof. intros. Z.div_mod_to_equations. lia. Qed.

Lemma unsextets_sextets bs : unsextets (sextets bs) = bs.
Proof.
  induction bs as [|a|a b|a b c rest IH] using bytes_ind3; simpl.
  - done.
  - pose proof (byte_value_range a).
    by rewrite regroup_first_tail, ToUint8_byte_value.
  - pose proof (byte_value_range a). pose proof (byte_value_range b).
    by rewrite regroup_first, regroup_second_tail, !ToUint8_byte_value.
  - pose proof (byte_value_range a). pose proof (byte_value_range b).
    pose proof (byte_value_range c).
    by rewrite regroup_first, regroup_second, regroup_third, !ToUint8_byte_value, IH.
Qed.

Lemma strip_padding_cons x l :
  is_pad x = false -> strip_padding (x :: l) = x :: strip_padding l.
Proof.
  intros Hx. destruct l as [|d [|e l]]; simpl; rewrite ?Hx; [done| |done].
  by destruct (is_pad d).
Qed.

Lemma padding_cases n :
  padding n = [] \/ padding n = ["="; "="]%char \/ padding n = ["="]%char.
Proof.
  unfold padding. destruct (n mod 3)%nat as [|[|]]; auto.
Qed.

Lemma strip_padding_chars vs n :
  Forall sextet vs -> strip_padding (map char_of vs ++ padding n) = map char_of vs.
Proof.
  induction 1 as [|v vs Hv _ IH].
  - simpl. by destruct (padding_cases n) as [->|[->| ->]].
  - cbn [map app]. rewrite strip_padding_cons by by apply char_of_facts.
    by rewrite IH.
Qed.

Lemma filter_chars vs n :
  Forall sextet vs ->
  List.filter (fun c => negb (is_whitespace c)) (map char_of vs ++ padding n)
  = map char_of vs ++ padding n.
Proof.
  induction 1 as [|v vs Hv _ IH]; simpl.
  - by destruct (padding_cases n) as [->|[->| ->]].
  - destruct (char_of_facts v Hv) as (_ & -> & _). simpl. by rewrite IH.
Qed.

Lemma values_chars vs : Forall sextet vs -> values (map char_of vs) = Some vs.
Proof.
  induction 1 as [|v vs Hv _ IH]; simpl; [done|].
  destruct (char_of_facts v Hv) as (-> & _). simpl. by rewrite IH.
Qed.

Lemma padding_add3 n : padding (S (S (S n))) = padding n.
Proof.
  unfold padding. replace (S (S (S n))) with (n + 1 * 3)%nat by lia.
  by rewrite Nat.Div0.mod_add.
Qed.

Lemma btoa_length bs :
  ((length (sextets bs) + length (padding (length bs))) mod 4 = 0 /\
   length (sextets bs) mod 4 <> 1)%nat.
Proof.
  induction bs as [|a|a b|a b c rest [IH1 IH2]] using bytes_ind3;
    [by vm_compute..|].
  cbn [length]. rewrite padding_add3. cbn [sextets length].
  split.
  - replace (S (S (S (S (length (sextets rest)))))
             + length (padding (length rest)))%nat
      with ((length (sextets rest) + length (padding (length rest))) + 1 * 4)%nat
      by lia.
    by rewrite Nat.Div0.mod_add.
  - replace (S (S (S (S (length (sextets rest))))))
      with (length (sextets rest) + 1 * 4)%nat by lia.
    by rewrite Nat.Div0.mod_add.
Qed.

(** atob(btoa(String.fromCharCode(...bytes))) gives the bytes back. *)
Lemma atob_btoa bs : atob (btoa bs) = Some bs.
Proof.
  pose proof (sextets_range bs) as Hr.
  destruct (btoa_length bs) as [Hlen Hne].
  unfold atob, btoa.
  rewrite list_ascii_of_string_of_list_ascii.
  rewrite filter_chars by done.
  rewrite length_app, length_map, Hlen. rewrite Nat.eqb_refl.
  rewrite strip_padding_chars, length_map by done.
  destruct (Nat.eqb_spec (length (sextets bs) mod 4) 1); [done|].
  rewrite values_chars by done. simpl. by rewrite unsextets_sextets.
Qed.

End Base64Facts.

(** * Properties of the client *)

Lemma toy_crypto_laws : SubtleCryptoLaws toy_crypto.
Proof.
  split; simpl.
  - intros a b P.
    rewrite !byte_value_ToUint8
      by (match goal with |- _ <= ?x mod _ < _ =>
            pose proof (Z.mod_pos_bound x 251) end; lia).
    rewrite !Z.mul_mod_idemp_r by lia. f_equal. f_equal. lia.
  - done.
  - intros k iv m. by rewrite (Byte.byte_dec_lb (eq_refl k)).
Qed.

Section ClientFacts.
Import Browser.
Context (W : SubtleCrypto).

Lemma importPublicKey_missing :
  importPublicKey W (ToString None) = Throw InvalidCharacterError.
Proof. reflexivity. Qed.

Section WithLaws.
Context (L : SubtleCryptoLaws W).

Lemma importPublicKey_exportPublicKey key :
  importPublicKey W (exportPublicKey W key) = Normal key.
Proof.
  unfold importPublicKey, exportPublicKey.
  by rewrite atob_btoa, (import_export W L).
Qed.

Lemma deriveSharedKey_symmetric a b :
  deriveSharedKey W a (scalar_mul W b (base_point W))
  = deriveSharedKey W b (scalar_mul W a (base_point W)).
Proof.
  unfold deriveSharedKey. by rewrite (scalar_mul_comm W L).
Qed.

(** What opening a sealed string gives in general. *)
Lemma open_seal key plaintext rnd :
  Forall (fun u => Unicode.is_code_unit u = true) plaintext ->
  decryptWithKey W key (encryptWithKey W key plaintext rnd)
  = Normal (flat_map Unicode.utf16_encode
              (Unicode.strip_bom (Unicode.scalar_values plaintext))).
Proof.
  intros Hp. unfold decryptWithKey, encryptWithKey. cbn [iv data].
  rewrite !Uint8Array_from_Array_from, (aes_gcm_open_seal W L).
  by rewrite decode_encode.
Qed.

End WithLaws.

End ClientFacts.

Section Handshake.
Import Browser.
Context (W : SubtleCrypto) (L : SubtleCryptoLaws W).

(** A client that holds a key pair and receives a public-key-response
    records the peer with the key derived from its own private key. *)
Lemma peer_from_response (p : Page W) (kp : CryptoKeyPair W) (peerId : string)
    (key : point W) (r : draws W) :
  myECDHKeyPair W p = Some kp ->
  exists t,
    run W (mkTab W p [])
      [ws_message (Some (PublicKey peerId (exportPublicKey W key))) r;
       settle 0; settle 0] = Some t /\
    peers W (page W t) !! peerId
    = Some (mkPeer W key (deriveSharedKey W (privateKey W kp) key)).
Proof.
  intros Hkp. unfold run, step, run_on, onmessage. cbn [page waiting].
  rewrite Hkp, (importPublicKey_exportPublicKey W L).
  unfold await, with_privateKey, sendMessage. simpl. rewrite Hkp. simpl.
  rewrite lookup_insert_eq.
  destruct (messageInput W p); simpl; eexists; (split; [reflexivity|]);
    simpl; by rewrite lookup_insert_eq.
Qed.

(** A client that holds a key pair and receives a first message from a
    sender records the sender with the key derived from its own private
    key and the public key the message carries. *)
Lemma peer_from_message (p : Page W) (kp : CryptoKeyPair W) (senderId : string)
    (key : point W) (ciphertext : envelope) (r : draws W) :
  myECDHKeyPair W p = Some kp ->
  peers W p !! senderId = None ->
  exists t,
    run W (mkTab W p [])
      [ws_message (Some (Message senderId ciphertext (Some (exportPublicKey W key)))) r;
       settle 0; settle 0] = Some t /\
    peers W (page W t) !! senderId
    = Some (mkPeer W key (deriveSharedKey W (privateKey W kp) key)).
Proof.
  intros Hkp Hnone. unfold run, step, run_on, onmessage. cbn [page waiting].
  rewrite Hkp, Hnone. cbn [ToString].
  rewrite (importPublicKey_exportPublicKey W L).
  unfold await, with_privateKey, decrypt_and_display. simpl. rewrite Hkp. simpl.
  rewrite lookup_insert_eq.
  destruct (decryptWithKey W _ ciphertext); simpl; eexists;
    (split; [reflexivity|]); simpl; by rewrite lookup_insert_eq.
Qed.

(** X17: the end-to-end scenario: B asked for A's key and got it from the
    relay, A got B's key with B's first message; the keys they hold for
    each other are equal. *)
Lemma handshake_in_session (a b : scalar W) (pA pB : Page W) (idA idB : string)
    (ciphertext : envelope) (rA rB : draws W) :
  let A := generateECDHKeyPair W a in
  let B := generateECDHKeyPair W b in
  myECDHKeyPair W pA = Some A ->
  myECDHKeyPair W pB = Some B ->
  peers W pA !! idB = None ->
  exists tA tB peerA peerB,
    run W (mkTab W pB [])
      [ws_message (Some (PublicKey idA (exportPublicKey W (publicKey W A)))) rB;
       settle 0; settle 0] = Some tB /\
    run W (mkTab W pA [])
      [ws_message (Some (Message idB ciphertext
                           (Some (exportPublicKey W (publicKey W B))))) rA;
       settle 0; settle 0] = Some tA /\
    peers W (page W tB) !! idA = Some peerA /\
    peers W (page W tA) !! idB = Some peerB /\
    sharedKey W peerA = sharedKey W peerB.
Proof.
  intros A B HA HB Hnone.
  destruct (peer_from_response pB B idA (publicKey W A) rB HB) as (tB & HtB & HpB).
  destruct (peer_from_message pA A idB (publicKey W B) ciphertext rA HA Hnone)
    as (tA & HtA & HpA).
  eexists tA, tB, _, _.
  split; [exact HtB|]. split; [exact HtA|].
  split; [exact HpB|]. split; [exact HpA|].
  simpl. by apply deriveSharedKey_symmetric.
Qed.

End Handshake.

(** C2: two clients that generated their key pairs and passed each other
    their exported public keys import the key the other one exported, and
    the key the first derives from its private key and the second's public
    key is the key the second derives from its private key and the
    first's public key. *)
Theorem handshake_agreement (W : SubtleCrypto) (L : SubtleCryptoLaws W)
    (a b : scalar W) :
  let A := Browser.generateECDHKeyPair W a in
  let B := Browser.generateECDHKeyPair W b in
  exists fromA fromB,
    Browser.importPublicKey W (Browser.exportPublicKey W (Browser.publicKey W A))
    = Normal fromA /\
    Browser.importPublicKey W (Browser.exportPublicKey W (Browser.publicKey W B))
    = Normal fromB /\
    Browser.deriveSharedKey W (Browser.privateKey W A) fromB
    = Browser.deriveSharedKey W (Browser.privateKey W B) fromA.
Proof.
  intros A B. exists (Browser.publicKey W A), (Browser.publicKey W B).
  split; [by apply importPublicKey_exportPublicKey|].
  split; [by apply importPublicKey_exportPublicKey|].
  by apply deriveSharedKey_symmetric.
Qed.

Lemma handshake_agreement_witness :
  let A := Browser.generateECDHKeyPair toy_crypto 5%N in
  let B := Browser.generateECDHKeyPair toy_crypto 11%N in
  exists fromA fromB,
    Browser.importPublicKey toy_crypto
      (Browser.exportPublicKey toy_crypto (Browser.publicKey toy_crypto A))
    = Normal fromA /\
    Browser.importPublicKey toy_crypto
      (Browser.exportPublicKey toy_crypto (Browser.publicKey toy_crypto B))
    = Normal fromB /\
    Browser.deriveSharedKey toy_crypto (Browser.privateKey toy_crypto A) fromB
    = Browser.deriveSharedKey toy_crypto (Browser.privateKey toy_crypto B) fromA.
Proof. exact (handshake_agreement toy_crypto toy_crypto_laws 5%N 11%N). Defined.

(** C3, as stated, fails: a plaintext that begins with U+FEFF comes back
    without it, and an unpaired surrogate comes back as U+FFFD. *)
Lemma byte_order_mark_lost :
  let key : aes_key toy_crypto := "042"%byte in
  let rnd : nat -> byte := fun _ => "007"%byte in
  Browser.decryptWithKey toy_crypto key
    (Browser.encryptWithKey toy_crypto key [0xFEFF; 104; 105] rnd)
  = Normal [104; 105] /\
  Browser.decryptWithKey toy_crypto key
    (Browser.encryptWithKey toy_crypto key [104; 0xD800] rnd)
  = Normal [104; 0xFFFD].
Proof. split; vm_compute; reflexivity. Qed.

(** C3, amended: for every plaintext that is well-formed UTF-16 (no
    unpaired surrogate) and does not begin with U+FEFF, and every key,
    decrypting the envelope that encrypting the plaintext produced gives
    the plaintext back. *)
Theorem open_seal_roundtrip (W : SubtleCrypto) (L : SubtleCryptoLaws W)
    (key : aes_key W) (plaintext : DOMString) (rnd : nat -> byte) :
  Unicode.well_formed plaintext = true ->
  head plaintext <> Some 0xFEFF ->
  Browser.decryptWithKey W key (Browser.encryptWithKey W key plaintext rnd)
  = Normal plaintext.
Proof.
  intros Hwf Hbom.
  rewrite (open_seal W L) by by apply well_formed_code_units.
  rewrite strip_bom_scalar_values by done.
  by rewrite utf16_encode_scalar_values.
Qed.

Lemma open_seal_roundtrip_witness :
  Browser.decryptWithKey toy_crypto "042"%byte
    (Browser.encryptWithKey toy_crypto "042"%byte
       [104; 233; 0x20AC; 0xD83D; 0xDE00] (fun _ => "007"%byte))
  = Normal [104; 233; 0x20AC; 0xD83D; 0xDE00].
Proof.
  apply (open_seal_roundtrip toy_crypto toy_crypto_laws); [reflexivity|].
  intros H; discriminate H.
Defined.

Section ClientProtocol.
Import Browser.
Context (W : SubtleCrypto).

(** C10: a public-key-response that arrives while [myECDHKeyPair] is still
    null is ignored: the page, the peers map included, is unchanged,
    nothing is derived or sent, and no continuation is left waiting. *)
Theorem early_publicKey_ignored (t : Tab W) (peerId key : string) (r : draws W) :
  myECDHKeyPair W (page W t) = None ->
  onmessage W (Some (PublicKey peerId key)) r (page W t) = (page W t, []) /\
  step W t (ws_message (Some (PublicKey peerId key)) r) = Some t.
Proof.
  intros Hnull. unfold step, run_on, onmessage. rewrite Hnull.
  split; [done|]. unfold done. rewrite app_nil_r. by destruct t.
Qed.

(** C4: a message from a sender with no Peer entry whose embedded public
    key is missing or does not import is dropped.  The handler ends by
    throwing, at once or at its first await, and nothing else happens: the
    peers map gains no entry, nothing is displayed and nothing is sent,
    neither when the handler starts nor when its continuation resumes. *)
Theorem undecodable_sender_key_dropped (p : Page W) (senderId : string)
    (ciphertext : envelope) (senderPublicKey : option string) (r : draws W) :
  peers W p !! senderId = None ->
  (senderPublicKey = None \/
   exists e, importPublicKey W (ToString senderPublicKey) = Throw e) ->
  exists e p' ts,
    onmessage W (Some (Message senderId ciphertext senderPublicKey)) r p = (p', ts) /\
    peers W p' = peers W p /\ messages W p' = messages W p /\
    wire W p' = wire W p /\
    (ts = [] /\ rejections W p' = rejections W p ++ [e] \/
     ts = [Await W (throw W e)] /\ rejections W p' = rejections W p) /\
    forall q,
      peers W (throw W e q).1 = peers W q /\
      messages W (throw W e q).1 = messages W q /\
      wire W (throw W e q).1 = wire W q /\
      rejections W (throw W e q).1 = rejections W q ++ [e] /\
      (throw W e q).2 = [].
Proof.
  intros Hpeer Hkey.
  assert (exists e, importPublicKey W (ToString senderPublicKey) = Throw e)
    as [e He].
  { destruct Hkey as [->|H]; [|exact H]. eexists. apply importPublicKey_missing. }
  unfold onmessage. rewrite Hpeer.
  destruct (myECDHKeyPair W p) as [kp|].
  - exists e, p, [Await W (throw W e)]. rewrite He.
    repeat split; try done. by right.
  - exists TypeError, (reject W TypeError p), [].
    unfold decrypt_and_display. rewrite Hpeer.
    repeat split; try done. by left.
Qed.

End ClientProtocol.

Lemma early_publicKey_ignored_witness :
  Browser.onmessage toy_crypto (Some (Browser.PublicKey "100000" "BEs="))
    toy_draws (Browser.page toy_crypto (Browser.opened toy_crypto))
  = (Browser.page toy_crypto (Browser.opened toy_crypto), []) /\
  Browser.step toy_crypto (Browser.opened toy_crypto)
    (Browser.ws_message (Some (Browser.PublicKey "100000" "BEs=")) toy_draws)
  = Some (Browser.opened toy_crypto).
Proof. apply early_publicKey_ignored. reflexivity. Defined.

Lemma undecodable_sender_key_dropped_witness :
  let p := Browser.set_myECDHKeyPair toy_crypto
             (Browser.generateECDHKeyPair toy_crypto 5%N) (Browser.blank toy_crypto) in
  let c := Browser.mkEnvelope [1; 2; 3] [4; 5; 6] in
  exists e p' ts,
    Browser.onmessage toy_crypto (Some (Browser.Message "654321" c None)) toy_draws p
    = (p', ts) /\
    Browser.peers toy_crypto p' = Browser.peers toy_crypto p /\
    Browser.messages toy_crypto p' = Browser.messages toy_crypto p /\
    Browser.wire toy_crypto p' = Browser.wire toy_crypto p /\
    (ts = [] /\
     Browser.rejections toy_crypto p' = Browser.rejections toy_crypto p ++ [e] \/
     ts = [Browser.Await toy_crypto (Browser.throw toy_crypto e)] /\
     Browser.rejections toy_crypto p' = Browser.rejections toy_crypto p) /\
    forall q,
      Browser.peers toy_crypto (Browser.throw toy_crypto e q).1
      = Browser.peers toy_crypto q /\
      Browser.messages toy_crypto (Browser.throw toy_crypto e q).1
      = Browser.messages toy_crypto q /\
      Browser.wire toy_crypto (Browser.throw toy_crypto e q).1
      = Browser.wire toy_crypto q /\
      Browser.rejections toy_crypto (Browser.throw toy_crypto e q).1
      = Browser.rejections toy_crypto q ++ [e] /\
      (Browser.throw toy_crypto e q).2 = [].
Proof.
  intros p c. apply undecodable_sender_key_dropped; [reflexivity|].
  left. reflexivity.
Defined.

Section Wire.
Import Browser.
Context (W : SubtleCrypto).

Lemma safe_done : safe_handler W (done W).
Proof. intros p Hp. by split. Qed.

Lemma safe_throw e : safe_handler W (throw W e).
Proof. intros p Hp. by split. Qed.

Lemma safe_await p k :
  page_ok W p -> safe_handler W k ->
  page_ok W (await W p k).1 /\ Forall (safe W) (await W p k).2.
Proof.
  intros Hp Hk. split; [done|]. simpl. constructor; [|done].
  constructor. exact Hk.
Qed.

Lemma page_ok_ws_send f p : allowed W f -> page_ok W p -> page_ok W (ws_send W f p).
Proof.
  intros Hf [Hw Hpeers]. split; [|done]. simpl.
  apply Forall_app. split; [done|by constructor].
Qed.

Lemma page_ok_peers_set peerId peer p :
  derived W peer -> page_ok W p -> page_ok W (peers_set W peerId peer p).
Proof.
  intros Hd [Hw Hpeers]. split; [done|]. simpl. intros k v.
  destruct (decide (k = peerId)) as [->|Hne].
  - rewrite lookup_insert_eq. by intros [= <-].
  - rewrite lookup_insert_ne by done. apply Hpeers.
Qed.

Lemma safe_sendMessage recipientId rnd : safe_handler W (sendMessage W recipientId rnd).
Proof.
  intros p Hp. unfold sendMessage.
  destruct (peers W p !! recipientId) as [peer|] eqn:Hpeer; [|by apply safe_done].
  destruct (messageInput W p) as [|u msg] eqn:Hmsg; [by apply safe_done|].
  apply safe_await; [done|]. intros q Hq. split; [|done]. simpl.
  destruct Hp as [_ Hpeers]. destruct (Hpeers _ _ Hpeer) as [d Hd].
  destruct Hq as [Hw Hq]. split; [|done]. simpl.
  apply Forall_app. split; [done|]. constructor; [|done].
  right. right. rewrite Hd. by eexists _, _, _, _, _.
Qed.

Lemma safe_decrypt_and_display senderId ciphertext :
  safe_handler W (decrypt_and_display W senderId ciphertext).
Proof.
  intros p Hp. unfold decrypt_and_display.
  destruct (peers W p !! senderId) as [peer|]; [|by apply safe_throw].
  destruct (decryptWithKey W (sharedKey W peer) ciphertext).
  - apply safe_await; [done|]. intros q Hq. by split.
  - apply safe_await; [done|]. apply safe_throw.
Qed.

Lemma safe_with_privateKey k :
  (forall d, safe_handler W (k d)) ->
  safe_handler W (fun p => with_privateKey W p (fun d => k d p)).
Proof.
  intros Hk p Hp. unfold with_privateKey.
  destruct (myECDHKeyPair W p); [by apply Hk|by apply safe_throw].
Qed.

Lemma safe_onmessage data r : safe_handler W (onmessage W data r).
Proof.
  intros p Hp. unfold onmessage.
  destruct data as [[sid|peerId key|senderId ciphertext senderPublicKey|]|];
    [| | |by apply safe_done|by apply safe_throw].
  - apply safe_await; [done|]. intros q Hq.
    apply safe_await; [done|]. intros q' Hq'. split; [|done].
    apply page_ok_ws_send; [|done]. left. by eexists.
  - destruct (myECDHKeyPair W p); [|by apply safe_done].
    destruct (importPublicKey W key) as [pubKey|e].
    + apply safe_await; [done|].
      apply (safe_with_privateKey (fun d q => await W q _)). intros d q Hq.
      apply safe_await; [done|]. intros q' Hq'.
      apply safe_sendMessage. apply page_ok_peers_set; [|done]. by exists d.
    + apply safe_await; [done|]. apply safe_throw.
  - destruct (peers W p !! senderId);
      [by apply safe_decrypt_and_display|].
    destruct (myECDHKeyPair W p); [|by apply safe_decrypt_and_display].
    destruct (importPublicKey W (ToString senderPublicKey)) as [pubKey|e].
    + apply safe_await; [done|].
      apply (safe_with_privateKey (fun d q => await W q _)). intros d q Hq.
      apply safe_await; [done|]. intros q' Hq'.
      apply safe_decrypt_and_display. apply page_ok_peers_set; [|done]. by exists d.
    + apply safe_await; [done|]. apply safe_throw.
Qed.

Lemma safe_onclick r : safe_handler W (onclick W r).
Proof.
  intros p Hp. unfold onclick.
  destruct (String.eqb _ _); [by apply safe_done|].
  destruct (peers W p !! _); [by apply safe_sendMessage|].
  split; [|done]. apply page_ok_ws_send; [|done]. right. left. by eexists.
Qed.

Lemma run_on_ok t others h :
  page_ok W (page W t) -> Forall (safe W) others -> safe_handler W h ->
  page_ok W (page W (run_on W t others h)) /\
  Forall (safe W) (waiting W (run_on W t others h)).
Proof.
  intros Hp Ho Hh. unfold run_on.
  destruct (Hh _ Hp) as [Hp' Hs]. destruct (h (page W t)) as [p' spawned].
  split; [done|]. simpl. apply Forall_app. by split.
Qed.

Lemma reachable_ok t :
  reachable W t -> page_ok W (page W t) /\ Forall (safe W) (waiting W t).
Proof.
  induction 1 as [|t e t' _ [Hp Hw] Hstep].
  - split; [|done]. split; [done|]. intros k v. simpl. by rewrite lookup_empty.
  - destruct e as [data r|r|v|v|i]; simpl in Hstep.
    + injection Hstep as <-. apply run_on_ok; [done..|apply safe_onmessage].
    + injection Hstep as <-. apply run_on_ok; [done..|apply safe_onclick].
    + injection Hstep as <-. by split.
    + injection Hstep as <-. by split.
    + destruct (waiting W t !! i) as [k|] eqn:Hk; [|done].
      injection Hstep as <-.
      apply run_on_ok; [done|by apply Forall_delete|].
      pose proof (Forall_lookup_1 _ _ _ _ Hw Hk) as Hsafe.
      destruct Hsafe as [k' Hk']. exact Hk'.
Qed.

Lemma tab_run_reachable es : forall t t',
  reachable W t -> run W t es = Some t' -> reachable W t'.
Proof.
  induction es as [|e es IH]; simpl; intros t t' Ht Hrun.
  - by injection Hrun as <-.
  - destruct (step W t e) as [t1|] eqn:He; [|done].
    eapply IH; [|exact Hrun]. by eapply reachable_step.
Qed.


End Wire.


(** * Further properties of the relay *)

Section RelayInvariants.
Import Relay.






Lemma on_message_sends sessionId ws data clients :
  Forall (fun '(w, msg) =>
            (w = ws \/ exists k c, clients !! k = Some c /\ socket c = w) /\
            outgoing_kind msg = true)
         (sends (on_message sessionId ws data clients)).
Proof.
  unfold on_message, try_block.
  destruct data as [parsed|]; [|by constructor].
  destruct parsed; simpl; try by constructor.
  destruct (last_member "type" members) as [[]|]; simpl; try by constructor.
  destruct (String.eqb s "publicKey").
  { destruct (clients !! sessionId); simpl; by constructor. }
  destruct (String.eqb s "getPublicKey").
  { destruct (Map_get clients (last_member "for" members) ≫= publicKey)
      as [key|] eqn:Hkey; [|simpl; by constructor].
    destruct (truthy (Some key)) eqn:Ht; simpl; [|by constructor].
    constructor; [|done]. split; [by left|].
    by destruct (last_member "for" members). }
  destruct (String.eqb s "message"); [|by constructor].
  destruct (Map_get clients (last_member "to" members)) as [r|] eqn:Hr;
    simpl; [|by constructor].
  constructor; [|done]. split.
  - right. destruct (last_member "to" members) as [[]|]; try discriminate Hr.
    simpl in Hr. eauto.
  - by destruct (last_member "ciphertext" members), (clients !! sessionId ≫= publicKey).
Qed.

Lemma reachable_sockets_open s : reachable s -> sockets_open s.
Proof.
  induction 1 as [|s e s' _ IH Hstep]; intros k c; simpl.
  - by rewrite lookup_empty.
  - destruct e as [ws m|ws data|ws]; simpl in Hstep.
    + destruct (open s !! ws) eqn:Hws; [done|]. case_bool_decide; [|done].
      injection Hstep as <-. simpl.
      destruct (decide (k = generateSessionId m)) as [->|Hne].
      * rewrite lookup_insert_eq. intros [= <-]. simpl. by rewrite lookup_insert_eq.
      * rewrite lookup_insert_ne by done. intros Hc.
        pose proof (IH _ _ Hc) as Hopen.
        rewrite lookup_insert_ne; [done|]. intros ->. congruence.
    + destruct (open s !! ws) as [sid|] eqn:Hws; [|done]. injection Hstep as <-.
      simpl.
      destruct (on_message_registry_cases sid ws data (clients s))
        as [->|(c0 & key & Hc0 & ->)]; [apply IH|].
      destruct (decide (k = sid)) as [->|Hne].
      * rewrite lookup_insert_eq. intros [= <-]. simpl. by apply IH.
      * rewrite lookup_insert_ne by done. apply IH.
    + destruct (open s !! ws) as [sid|] eqn:Hws; [|done]. injection Hstep as <-.
      simpl. unfold on_close. rewrite lookup_delete. case_decide as Hk; [done|].
      intros Hc. pose proof (IH _ _ Hc) as Hopen.
      rewrite lookup_delete_ne; [done|]. intros ->. congruence.
Qed.

(** X2: in every state the relay can reach, each entry of the registry
    belongs to an open connection: its socket is open, and the handlers of
    that socket hold the id the entry is stored under. *)
Theorem registry_sockets_are_open s k c :
  reachable s -> clients s !! k = Some c ->
  open s !! socket c = Some k /\ id c = k.
Proof.
  intros Hs Hc. split.
  - by apply (reachable_sockets_open s Hs).
  - by apply (reachable_keyed_by_id s Hs).
Qed.

Lemma registry_sockets_are_open_witness :
  exists s, run boot [Connection 1%nat 0; Connection 2%nat (2 ^ 52)] = Some s /\
    clients s !! "550000" = Some (mkClient "550000" 2%nat None) /\
    open s !! socket (mkClient "550000" 2%nat None) = Some "550000" /\
    id (mkClient "550000" 2%nat None) = "550000".
Proof.
  eexists. split; [reflexivity|].
  split; [by vm_compute|].
  eapply registry_sockets_are_open; [|by vm_compute].
  eapply (run_reachable [Connection 1%nat 0; Connection 2%nat (2 ^ 52)]);
    [apply reachable_boot|reflexivity].
Defined.

(** X3: once every connection has closed, the registry is empty: no
    session outlives its connection. *)
Theorem registry_empty_when_all_closed s :
  reachable s -> open s = ∅ -> clients s = ∅.
Proof.
  intros Hs Hopen. apply map_empty. intros k.
  destruct (clients s !! k) as [c|] eqn:Hc; [|done].
  pose proof (reachable_sockets_open s Hs k c Hc) as H.
  by rewrite Hopen, lookup_empty in H.
Qed.

Lemma registry_empty_when_all_closed_witness :
  exists s, run boot [Connection 1%nat 0; Frame 1%nat (Some (publish (JStr "BEs=")));
                      Close 1%nat] = Some s /\
    clients s = ∅.
Proof.
  eexists. split; [reflexivity|].
  apply registry_empty_when_all_closed; [|by vm_compute].
  eapply (run_reachable [Connection 1%nat 0; Frame 1%nat (Some (publish (JStr "BEs=")));
                         Close 1%nat]);
    [apply reachable_boot|reflexivity].
Defined.

(** X4: whatever the relay writes while it handles an event, it writes to
    a socket that is open when the event has been handled, and what it
    writes is an init, a publicKey or a message: there is no error reply. *)
Theorem relay_writes_to_open_sockets s e s' :
  reachable s -> step s e = Some s' ->
  exists written,
    outbox s' = outbox s ++ written /\
    Forall (fun '(w, msg) => is_Some (open s' !! w) /\ outgoing_kind msg = true)
           written.
Proof.
  intros Hs Hstep. pose proof (reachable_sockets_open s Hs) as Hinv.
  destruct e as [ws m|ws data|ws]; simpl in Hstep.
  - destruct (open s !! ws); [done|]. case_bool_decide; [|done].
    injection Hstep as <-. eexists. split; [reflexivity|]. simpl.
    constructor; [|done]. split; [|reflexivity]. by rewrite lookup_insert_eq.
  - destruct (open s !! ws) as [sid|] eqn:Hws; [|done]. injection Hstep as <-.
    eexists. split; [reflexivity|]. simpl.
    eapply Forall_impl; [apply on_message_sends|].
    intros [w msg] [[->|(k & c & Hc & <-)] Hkind]; (split; [|done]).
    + by rewrite Hws.
    + by rewrite (Hinv _ _ Hc).
  - destruct (open s !! ws); [|done]. injection Hstep as <-.
    exists []. by rewrite app_nil_r.
Qed.

Lemma relay_writes_to_open_sockets_witness :
  exists s s',
    run boot [Connection 1%nat 0; Frame 1%nat (Some (publish (JStr "BEs=")))] = Some s /\
    step s (Frame 1%nat (Some (request "100000"))) = Some s' /\
    exists written,
      outbox s' = outbox s ++ written /\
      Forall (fun '(w, msg) => is_Some (open s' !! w) /\ outgoing_kind msg = true)
             written.
Proof.
  eexists _, _. split; [reflexivity|]. split; [reflexivity|].
  eapply (relay_writes_to_open_sockets _ (Frame 1%nat (Some (request "100000"))));
    [|reflexivity].
  eapply (run_reachable [Connection 1%nat 0; Frame 1%nat (Some (publish (JStr "BEs=")))]);
    [apply reachable_boot|reflexivity].
Defined.


(** X5: on a new connection the relay writes exactly one message, an
    init to the new socket, and the session id in it is the id the
    handlers of the connection hold and the key under which the socket has
    just been registered. *)
Theorem connection_is_told_its_id s ws m s' :
  step s (Connection ws m) = Some s' ->
  exists sid initMsg,
    open s' !! ws = Some sid /\
    outbox s' = outbox s ++ [(ws, initMsg)] /\
    get "type" initMsg = Normal (Some (JStr "init")) /\
    get "sessionId" initMsg = Normal (Some (JStr sid)) /\
    socket <$> clients s' !! sid = Some ws /\
    console s' = console s.
Proof.
  intros Hstep. simpl in Hstep. destruct (open s !! ws); [done|].
  case_bool_decide; [|done]. injection Hstep as <-.
  eexists _, _. simpl. split; [by rewrite lookup_insert_eq|].
  split; [reflexivity|]. repeat split.
  - by rewrite lookup_insert_eq.
  - by rewrite app_nil_r.
Qed.

Lemma connection_is_told_its_id_witness :
  exists s' sid initMsg,
    step boot (Connection 1%nat 0) = Some s' /\
    open s' !! 1%nat = Some sid /\
    outbox s' = outbox boot ++ [(1%nat, initMsg)] /\
    get "type" initMsg = Normal (Some (JStr "init")) /\
    get "sessionId" initMsg = Normal (Some (JStr sid)) /\
    socket <$> clients s' !! sid = Some 1%nat /\
    console s' = console boot.
Proof.
  destruct (connection_is_told_its_id boot 1%nat 0 _ eq_refl)
    as (sid & initMsg & H).
  eexists _, sid, initMsg. split; [reflexivity|exact H].
Defined.





(** X8: once a connection has closed, a message addressed to its id is
    dropped: the entry is gone from the registry, nothing is written to
    any socket and nothing is logged. *)
Theorem close_then_forward s ws sid ws2 sid2 ciphertext :
  open s !! ws = Some sid -> open s !! ws2 = Some sid2 -> ws2 <> ws ->
  exists s',
    run s [Close ws; Frame ws2 (Some (forward sid ciphertext))] = Some s' /\
    clients s' !! sid = None /\ open s' !! ws = None /\
    outbox s' = outbox s /\ console s' = console s.
Proof.
  intros Hws Hws2 Hne. unfold run. simpl. rewrite Hws. simpl.
  rewrite lookup_delete_ne by done. rewrite Hws2. simpl.
  eexists. split; [reflexivity|]. simpl.
  unfold on_message, try_block, on_close. simpl. rewrite lookup_delete_eq. simpl.
  repeat split; try by rewrite app_nil_r.
  - by rewrite lookup_delete_eq.
  - by rewrite lookup_delete_eq.
Qed.

Lemma close_then_forward_witness :
  let s := mkServer {[ "100000" := mkClient "100000" 1%nat None ]}
                    (<[2%nat := "550000"]> {[ 1%nat := "100000" ]}) [] [] in
  exists s',
    run s [Close 1%nat; Frame 2%nat (Some (forward "100000" (JArr [])))] = Some s' /\
    clients s' !! "100000" = None /\ open s' !! 1%nat = None /\
    outbox s' = outbox s /\ console s' = console s.
Proof.
  intros s. apply (close_then_forward s 1%nat "100000" 2%nat "550000");
    by vm_compute.
Defined.

End RelayInvariants.

(** * Further properties of the client's codecs *)

Section Codecs.
Import Browser.
Context (W : SubtleCrypto).

Lemma length_string_of_list_ascii (cs : list ascii) :
  String.length (string_of_list_ascii cs) = length cs.
Proof. induction cs as [|c cs IH]; simpl; [done|by rewrite IH]. Qed.

Lemma utf16_encode_well_formed cps :
  Forall (fun c => Unicode.is_scalar c = true) cps ->
  Unicode.well_formed (flat_map Unicode.utf16_encode cps) = true.
Proof.
  induction 1 as [|c cps Hc _ IH]; [done|].
  cbn [flat_map]. unfold Unicode.utf16_encode, Unicode.is_scalar in *.
  destruct (Z.ltb_spec c 0x10000).
  - cbn [app]. rewrite well_formed_cons, IH.
    unfold Unicode.is_code_unit, Unicode.is_lead, Unicode.is_trail.
    destruct (Z.leb_spec 0xD800 c), (Z.leb_spec c 0xDBFF),
      (Z.leb_spec 0xDC00 c), (Z.leb_spec c 0xDFFF); simpl; lia.
  - cbn [app]. rewrite well_formed_cons.
    assert (0 <= (c - 0x10000) / 0x400 < 0x400) by (Z.div_mod_to_equations; lia).
    assert (0 <= (c - 0x10000) mod 0x400 < 0x400) by (Z.div_mod_to_equations; lia).
    replace (Unicode.is_lead (0xD800 + (c - 0x10000) / 0x400)) with true
      by (unfold Unicode.is_lead; lia).
    replace (Unicode.is_trail (0xDC00 + (c - 0x10000) mod 0x400)) with true
      by (unfold Unicode.is_trail; lia).
    rewrite IH. unfold Unicode.is_code_unit. lia.
Qed.

Lemma strip_bom_Forall (P : Z -> Prop) cps :
  Forall P cps -> Forall P (Unicode.strip_bom cps).
Proof.
  intros H. destruct H as [|c cps Hc H]; simpl; [done|].
  destruct (c =? 0xFEFF); [done|by constructor].
Qed.

Lemma strip_bom_well_formed s :
  Unicode.well_formed s = true ->
  flat_map Unicode.utf16_encode (Unicode.strip_bom (Unicode.scalar_values s))
  = Unicode.strip_bom s.
Proof.
  intros Hs. destruct s as [|u rest]; [done|].
  destruct (Z.eqb_spec u 0xFEFF) as [->|Hne].
  - change (Unicode.scalar_values (0xFEFF :: rest))
      with (0xFEFF :: Unicode.scalar_values rest).
    change (Unicode.well_formed (0xFEFF :: rest))
      with (Unicode.well_formed rest) in Hs.
    simpl Unicode.strip_bom. by apply utf16_encode_scalar_values.
  - rewrite strip_bom_scalar_values; [|done|simpl; congruence].
    rewrite utf16_encode_scalar_values by done.
    simpl. by destruct (Z.eqb_spec u 0xFEFF).
Qed.

Lemma ToUint8_mod z : ToUint8 (z mod 256) = ToUint8 z.
Proof.
  unfold ToUint8. by rewrite !land_0xFF, Z.mod_mod by lia.
Qed.

Section WithLaws.
Context (L : SubtleCryptoLaws W).

(** X9: a public key exported for the wire imports back to the same key,
    whatever the key, and the exported text has a length that is a
    multiple of four. *)
Theorem exported_key_imports_back (key : point W) :
  importPublicKey W (exportPublicKey W key) = Normal key /\
  (String.length (exportPublicKey W key) mod 4 = 0)%nat.
Proof.
  split; [by apply importPublicKey_exportPublicKey|].
  unfold exportPublicKey, Base64.btoa.
  rewrite length_string_of_list_ascii, length_app, length_map.
  apply btoa_length.
Qed.

(** X11: for every well-formed plaintext, decrypting what encrypting it
    produced gives the plaintext without a leading U+FEFF, and the
    plaintext itself when it does not begin with one. *)
Theorem open_seal_drops_one_bom (key : aes_key W) (plaintext : DOMString)
    (rnd : nat -> byte) :
  Unicode.well_formed plaintext = true ->
  decryptWithKey W key (encryptWithKey W key plaintext rnd)
  = Normal (Unicode.strip_bom plaintext).
Proof.
  intros Hwf. rewrite (open_seal W L) by by apply well_formed_code_units.
  by rewrite strip_bom_well_formed.
Qed.

(** X12: whatever string of code units is encrypted, what decryption
    gives back is well-formed UTF-16: it never holds an unpaired
    surrogate. *)
Theorem open_seal_is_well_formed (key : aes_key W) (plaintext : DOMString)
    (rnd : nat -> byte) :
  Forall (fun u => Unicode.is_code_unit u = true) plaintext ->
  exists text,
    decryptWithKey W key (encryptWithKey W key plaintext rnd) = Normal text /\
    Unicode.well_formed text = true.
Proof.
  intros Hp. eexists. split; [by apply (open_seal W L)|].
  apply utf16_encode_well_formed, strip_bom_Forall.
  by apply scalar_values_scalar.
Qed.

End WithLaws.

(** X10: the envelope [encryptWithKey] returns is fit for JSON: its iv is
    the first twelve bytes the random source returned, and every number of
    iv and data is a byte value. *)
Theorem envelope_is_bytes (key : aes_key W) (plaintext : DOMString)
    (rnd : nat -> byte) :
  iv (encryptWithKey W key plaintext rnd)
  = map (fun i => byte_value (rnd i)) (seq 0 12) /\
  byte_values (iv (encryptWithKey W key plaintext rnd)) /\
  byte_values (data (encryptWithKey W key plaintext rnd)).
Proof.
  split; [reflexivity|]. unfold byte_values, encryptWithKey, Array_from.
  cbn [iv data].
  split; apply List.Forall_map, List.Forall_forall; intros b _;
    apply byte_value_range.
Qed.

(** X13: [decryptWithKey] reads the numbers of an envelope modulo 256: a
    number outside 0..255 is not rejected, it is wrapped. *)
Theorem envelope_numbers_wrap (key : aes_key W) (iv data : list Z) :
  decryptWithKey W key (mkEnvelope iv data)
  = decryptWithKey W key (mkEnvelope (map (fun x => x mod 256) iv)
                                     (map (fun x => x mod 256) data)).
Proof.
  unfold decryptWithKey, Uint8Array_from. simpl.
  rewrite !map_map.
  by rewrite (map_ext _ ToUint8 ToUint8_mod iv), (map_ext _ ToUint8 ToUint8_mod data).
Qed.

End Codecs.

Lemma exported_key_imports_back_witness :
  Browser.importPublicKey toy_crypto (Browser.exportPublicKey toy_crypto "075"%byte)
  = Normal "075"%byte /\
  (String.length (Browser.exportPublicKey toy_crypto "075"%byte) mod 4 = 0)%nat.
Proof. exact (exported_key_imports_back toy_crypto toy_crypto_laws "075"%byte). Defined.

Lemma open_seal_drops_one_bom_witness :
  Browser.decryptWithKey toy_crypto "042"%byte
    (Browser.encryptWithKey toy_crypto "042"%byte
       [0xFEFF; 0xFEFF; 104; 0xD83D; 0xDE00] (fun _ => "007"%byte))
  = Normal (Unicode.strip_bom [0xFEFF; 0xFEFF; 104; 0xD83D; 0xDE00]).
Proof.
  apply (open_seal_drops_one_bom toy_crypto toy_crypto_laws). reflexivity.
Defined.

Lemma open_seal_is_well_formed_witness :
  exists text,
    Browser.decryptWithKey toy_crypto "042"%byte
      (Browser.encryptWithKey toy_crypto "042"%byte
         [0xDC00; 104; 0xD800] (fun _ => "007"%byte)) = Normal text /\
    Unicode.well_formed text = true.
Proof.
  apply (open_seal_is_well_formed toy_crypto toy_crypto_laws).
  repeat constructor.
Defined.

(** * Further properties of the client's handlers *)

Section ClientSessions.
Import Browser.
Context (W : SubtleCrypto).

(** X14: a click does nothing at all when the recipient field is blank,
    or when the peer is known and the message field is empty: nothing is
    sent, nothing is displayed and no continuation is left. *)
Theorem click_without_effect (t : Tab W) (r : draws W) :
  trim (recipientInput W (page W t)) = "" \/
  (is_Some (peers W (page W t) !! trim (recipientInput W (page W t))) /\
   messageInput W (page W t) = []) ->
  step W t (click r) = Some t.
Proof.
  intros H. unfold step, run_on, onclick.
  destruct H as [->|[[peer Hpeer] Hmsg]].
  - simpl. unfold done. rewrite app_nil_r. by destruct t.
  - destruct (String.eqb _ _); [unfold done; rewrite app_nil_r; by destruct t|].
    rewrite Hpeer. unfold sendMessage. rewrite Hpeer, Hmsg.
    unfold done. rewrite app_nil_r. by destruct t.
Qed.

(** X15: a click for a peer that is not known yet sends exactly one
    request for that peer's public key, with the recipient field trimmed,
    and does nothing else: the message is not sent, nothing is displayed. *)
Theorem click_requests_key (t : Tab W) (r : draws W) :
  trim (recipientInput W (page W t)) <> "" ->
  peers W (page W t) !! trim (recipientInput W (page W t)) = None ->
  step W t (click r)
  = Some (mkTab W
            (ws_send W (send_getPublicKey (trim (recipientInput W (page W t))))
                     (page W t))
            (waiting W t)).
Proof.
  intros Hne Hpeer. unfold step, run_on, onclick.
  destruct (String.eqb_spec (trim (recipientInput W (page W t))) ""); [done|].
  rewrite Hpeer. unfold done. by rewrite app_nil_r.
Qed.

(** X16: on init the client stores the session id, shows it, generates a
    key pair from the scalar it draws, and publishes exactly the export of
    that pair's public key; the handler is over after two awaits, and
    whatever else was waiting at an await is still waiting, untouched. *)
Theorem init_publishes_key (t : Tab W) (sid : string) (r : draws W) :
  let kp := generateECDHKeyPair W (ecdh_scalar W r) in
  let n := length (waiting W t) in
  run W t [ws_message (Some (Init sid)) r; settle n; settle n]
  = Some (mkTab W
            (ws_send W (send_publicKey (exportPublicKey W (publicKey W kp)))
               (set_myECDHKeyPair W kp (set_sessionId W sid (page W t))))
            (waiting W t)).
Proof.
  intros kp n. subst n. destruct t as [p ks].
  unfold run, step, run_on, onmessage, await.
  cbn [page waiting mbind option_bind].
  rewrite list_lookup_middle by done. cbn [mbind option_bind resume page waiting].
  rewrite delete_middle, app_nil_r.
  rewrite list_lookup_middle by done. cbn [mbind option_bind resume page waiting].
  rewrite delete_middle. unfold done. by rewrite !app_nil_r.
Qed.

(** A message from a sender whose Peer entry exists, handled to its end. *)
Lemma known_sender_run (p : Page W) (senderId : string) (peer : Peer W)
    (ciphertext : envelope) (senderPublicKey : option string) (r : draws W) :
  peers W p !! senderId = Some peer ->
  run W (mkTab W p [])
    [ws_message (Some (Message senderId ciphertext senderPublicKey)) r; settle 0]
  = Some (mkTab W
            match decryptWithKey W (sharedKey W peer) ciphertext with
            | Normal plaintext => appendChild W (received senderId plaintext) p
            | Throw e => reject W e p
            end []).
Proof.
  intros Hpeer. unfold run, step, run_on, onmessage. cbn [page waiting].
  rewrite Hpeer. unfold decrypt_and_display. rewrite Hpeer.
  by destruct (decryptWithKey W (sharedKey W peer) ciphertext).
Qed.

(** X19: a message from a known peer that does not decrypt is never
    displayed: the handler ends with the error of [decryptWithKey], and
    the displayed messages, the peers and the socket output are as
    before. *)
Theorem undecryptable_message_not_displayed (p : Page W) (senderId : string)
    (peer : Peer W) (ciphertext : envelope) (senderPublicKey : option string)
    (r : draws W) (e : error) :
  peers W p !! senderId = Some peer ->
  decryptWithKey W (sharedKey W peer) ciphertext = Throw e ->
  exists t,
    run W (mkTab W p [])
      [ws_message (Some (Message senderId ciphertext senderPublicKey)) r; settle 0]
    = Some t /\
    waiting W t = [] /\
    messages W (page W t) = messages W p /\
    peers W (page W t) = peers W p /\
    wire W (page W t) = wire W p /\
    rejections W (page W t) = rejections W p ++ [e].
Proof.
  intros Hpeer He. eexists. split; [by apply known_sender_run|].
  rewrite He. by repeat split.
Qed.

(** X20: once a Peer entry exists for a sender, the public key a message
    of that sender carries is not looked at: whatever it is, the handler
    does the same, and the entry stays as it is. *)
Theorem inline_key_ignored_for_known_peer (p : Page W) (senderId : string)
    (peer : Peer W) (ciphertext : envelope) (key1 key2 : option string)
    (r : draws W) :
  peers W p !! senderId = Some peer ->
  exists t,
    run W (mkTab W p [])
      [ws_message (Some (Message senderId ciphertext key1)) r; settle 0] = Some t /\
    run W (mkTab W p [])
      [ws_message (Some (Message senderId ciphertext key2)) r; settle 0] = Some t /\
    peers W (page W t) = peers W p.
Proof.
  intros Hpeer. eexists. split; [by apply known_sender_run|].
  split; [by apply known_sender_run|].
  by destruct (decryptWithKey W (sharedKey W peer) ciphertext).
Qed.

(** A click for a known peer with a message typed, handled to its end. *)
Lemma click_sends_run (p : Page W) (peer : Peer W) (r : draws W) :
  trim (recipientInput W p) <> "" ->
  peers W p !! trim (recipientInput W p) = Some peer ->
  messageInput W p <> [] ->
  run W (mkTab W p []) [click r; settle 0]
  = Some (mkTab W
            (appendChild W (sent_to (trim (recipientInput W p)) (messageInput W p))
               (ws_send W
                  (send_message (trim (recipientInput W p))
                     (encryptWithKey W (sharedKey W peer) (messageInput W p)
                        (random_bytes W r)))
                  p))
            []).
Proof.
  intros Hne Hpeer Hmsg. unfold run, step, run_on, onclick. cbn [page waiting].
  destruct (String.eqb_spec (trim (recipientInput W p)) ""); [done|].
  rewrite Hpeer. unfold sendMessage. rewrite Hpeer.
  by destruct (messageInput W p).
Qed.

Section WithLaws.
Context (L : SubtleCryptoLaws W).

(** X18: what one client types is what the other displays.  When the two
    hold the same shared key for each other, a click of the sender puts one
    message on the socket and shows the text as sent; the recipient that
    gets the envelope of that message shows the same text under the
    sender's id (without a leading U+FEFF, if it had one). *)
Theorem typed_text_is_displayed (pA pB : Page W) (idA idB : string)
    (peerB peerA : Peer W) (senderPublicKey : option string) (rA rB : draws W) :
  trim (recipientInput W pA) = idB -> idB <> "" ->
  peers W pA !! idB = Some peerB ->
  peers W pB !! idA = Some peerA ->
  sharedKey W peerA = sharedKey W peerB ->
  messageInput W pA <> [] ->
  Unicode.well_formed (messageInput W pA) = true ->
  exists tA sealed tB,
    run W (mkTab W pA []) [click rA; settle 0] = Some tA /\
    wire W (page W tA) = wire W pA ++ [send_message idB sealed] /\
    messages W (page W tA)
    = messages W pA ++ [sent_to idB (messageInput W pA)] /\
    run W (mkTab W pB [])
      [ws_message (Some (Message idA sealed senderPublicKey)) rB; settle 0]
    = Some tB /\
    messages W (page W tB)
    = messages W pB ++ [received idA (Unicode.strip_bom (messageInput W pA))].
Proof.
  intros Hid Hne HpB HpA Hkey Hmsg Hwf. subst idB.
  eexists _, _, _. split; [by eapply click_sends_run|].
  split; [reflexivity|]. split; [reflexivity|].
  split; [by eapply known_sender_run|].
  rewrite Hkey, (open_seal W L) by by apply well_formed_code_units.
  by rewrite strip_bom_well_formed.
Qed.

(** X24: the first message to a peer waits for the peer's key.  A click
    for an unknown peer only asks for the key; when the answer comes, the
    client derives the shared key from its own private key, records the
    peer, and then sends the message that is in the field, encrypted under
    that key. *)
Theorem first_message_waits_for_key (p : Page W) (kp : CryptoKeyPair W)
    (key : point W) (r1 r2 : draws W) :
  let peerId := trim (recipientInput W p) in
  let sharedKey := deriveSharedKey W (privateKey W kp) key in
  peerId <> "" ->
  peers W p !! peerId = None ->
  myECDHKeyPair W p = Some kp ->
  messageInput W p <> [] ->
  exists t,
    run W (mkTab W p [])
      [click r1;
       ws_message (Some (PublicKey peerId (exportPublicKey W key))) r2;
       settle 0; settle 0; settle 0] = Some t /\
    waiting W t = [] /\
    wire W (page W t)
    = wire W p ++ [send_getPublicKey peerId;
                   send_message peerId
                     (encryptWithKey W sharedKey (messageInput W p)
                        (random_bytes W r2))] /\
    peers W (page W t) = <[peerId := mkPeer W key sharedKey]> (peers W p) /\
    messages W (page W t) = messages W p ++ [sent_to peerId (messageInput W p)].
Proof.
  intros peerId sharedKey Hne Hpeer Hkp Hmsg. subst peerId sharedKey.
  unfold run, step, run_on, onclick, onmessage. cbn [page waiting].
  destruct (String.eqb_spec (trim (recipientInput W p)) ""); [done|].
  rewrite Hpeer. cbn [done app mbind option_bind page waiting].
  cbn [ws_send myECDHKeyPair]. rewrite Hkp.
  rewrite (importPublicKey_exportPublicKey W L).
  unfold await, with_privateKey, sendMessage. simpl. rewrite Hkp. simpl.
  rewrite lookup_insert_eq.
  destruct (messageInput W p) as [|u text] eqn:Hm; [done|]. simpl.
  eexists. split; [reflexivity|]. simpl. repeat split.
  by rewrite <- app_assoc.
Qed.

End WithLaws.

Lemma steady_done : steady_handler W (done W).
Proof. intros p. by repeat split. Qed.

Lemma steady_throw e : steady_handler W (throw W e).
Proof.
  intros p. repeat split; simpl; try done. by apply prefix_app_r.
Qed.

Lemma steady_await p q k :
  grows W p q -> same_inputs W p q -> steady_handler W k ->
  grows W p (await W q k).1 /\ same_inputs W p (await W q k).1
  /\ Forall (steady W) (await W q k).2.
Proof.
  intros Hg Hi Hk. repeat split; try apply Hg; try apply Hi.
  simpl. constructor; [|done]. constructor. exact Hk.
Qed.

Lemma grows_refl p : grows W p p.
Proof. by repeat split. Qed.

Lemma same_inputs_refl p : same_inputs W p p.
Proof. by split. Qed.

Lemma grows_peers_set k v p : grows W p (peers_set W k v p).
Proof.
  repeat split; simpl; try done. intros k' Hk'.
  destruct (decide (k' = k)) as [->|]; [by rewrite lookup_insert_eq|].
  by rewrite lookup_insert_ne.
Qed.

Lemma steady_sendMessage recipientId rnd q :
  grows W q (sendMessage W recipientId rnd q).1 /\
  same_inputs W q (sendMessage W recipientId rnd q).1 /\
  Forall (steady W) (sendMessage W recipientId rnd q).2.
Proof.
  unfold sendMessage.
  destruct (peers W q !! recipientId); [|by apply steady_done].
  destruct (messageInput W q); [by apply steady_done|].
  apply steady_await; [apply grows_refl|apply same_inputs_refl|].
  intros q0. repeat split; simpl; try done; by apply prefix_app_r.
Qed.

Lemma steady_decrypt_and_display senderId ciphertext q :
  grows W q (decrypt_and_display W senderId ciphertext q).1 /\
  same_inputs W q (decrypt_and_display W senderId ciphertext q).1 /\
  Forall (steady W) (decrypt_and_display W senderId ciphertext q).2.
Proof.
  unfold decrypt_and_display.
  destruct (peers W q !! senderId); [|by apply steady_throw].
  destruct (decryptWithKey W _ ciphertext).
  - apply steady_await; [apply grows_refl|apply same_inputs_refl|].
    intros q0. repeat split; simpl; try done. by apply prefix_app_r.
  - apply steady_await; [apply grows_refl|apply same_inputs_refl|].
    apply steady_throw.
Qed.

Lemma grows_trans p q r : grows W p q -> grows W q r -> grows W p r.
Proof.
  intros (H1 & H2 & H3 & H4 & H5 & H6) (G1 & G2 & G3 & G4 & G5 & G6).
  repeat split; try (by etrans); auto.
Qed.

Lemma same_inputs_trans p q r :
  same_inputs W p q -> same_inputs W q r -> same_inputs W p r.
Proof. intros [H1 H2] [G1 G2]. split; congruence. Qed.

(** A segment that records a peer and goes on with [next]. *)
Lemma steady_after_peers_set k v next :
  (forall q, grows W q (next q).1 /\ same_inputs W q (next q).1
             /\ Forall (steady W) (next q).2) ->
  steady_handler W (fun p => next (peers_set W k v p)).
Proof.
  intros Hnext p. destruct (Hnext (peers_set W k v p)) as (Hg & Hi & Hs).
  split; [|split; [|exact Hs]].
  - eapply grows_trans; [apply grows_peers_set|exact Hg].
  - eapply same_inputs_trans; [|exact Hi]. by split.
Qed.

Lemma steady_derive_then (next : scalar W -> Page W -> Page W * list (task W)) :
  (forall d, steady_handler W (next d)) ->
  steady_handler W (fun p => with_privateKey W p
                     (fun d => await W p (next d))).
Proof.
  intros Hnext p. unfold with_privateKey.
  destruct (myECDHKeyPair W p); [|by apply steady_throw].
  apply steady_await; [apply grows_refl|apply same_inputs_refl|apply Hnext].
Qed.

Lemma steady_onmessage data r : steady_handler W (onmessage W data r).
Proof.
  intros p. unfold onmessage.
  destruct data as [[sid|peerId key|senderId ciphertext senderPublicKey|]|];
    [| | |by apply steady_done|by apply steady_throw].
  - apply steady_await; [by repeat split|by split|].
    intros q. apply steady_await; [by repeat split|by split|].
    intros q'. repeat split; simpl; try done. by apply prefix_app_r.
  - destruct (myECDHKeyPair W p); [|by apply steady_done].
    destruct (importPublicKey W key) as [pubKey|e].
    + apply steady_await; [apply grows_refl|apply same_inputs_refl|].
      apply (steady_derive_then
               (fun d q => sendMessage W peerId (random_bytes W r)
                             (peers_set W peerId
                                (mkPeer W pubKey (deriveSharedKey W d pubKey)) q))).
      intros d. apply steady_after_peers_set. apply steady_sendMessage.
    + apply steady_await; [apply grows_refl|apply same_inputs_refl|].
      apply steady_throw.
  - destruct (peers W p !! senderId);
      [by apply steady_decrypt_and_display|].
    destruct (myECDHKeyPair W p); [|by apply steady_decrypt_and_display].
    destruct (importPublicKey W (ToString senderPublicKey)) as [pubKey|e].
    + apply steady_await; [apply grows_refl|apply same_inputs_refl|].
      apply (steady_derive_then
               (fun d q => decrypt_and_display W senderId ciphertext
                             (peers_set W senderId
                                (mkPeer W pubKey (deriveSharedKey W d pubKey)) q))).
      intros d. apply steady_after_peers_set. apply steady_decrypt_and_display.
    + apply steady_await; [apply grows_refl|apply same_inputs_refl|].
      apply steady_throw.
Qed.

Lemma steady_onclick r : steady_handler W (onclick W r).
Proof.
  intros p. unfold onclick.
  destruct (String.eqb _ _); [by apply steady_done|].
  destruct (peers W p !! _); [by apply steady_sendMessage|].
  repeat split; simpl; try done. by apply prefix_app_r.
Qed.

(** One turn of the event loop on a tab whose continuations are steady. *)
Lemma step_steady (t t' : Tab W) (e : event W) :
  Forall (steady W) (waiting W t) -> step W t e = Some t' ->
  grows W (page W t) (page W t') /\
  ((forall v, e <> type_recipient v) -> (forall v, e <> type_message v) ->
   same_inputs W (page W t) (page W t')) /\
  Forall (steady W) (waiting W t').
Proof.
  intros Hw Hstep.
  destruct e as [data r|r|v|v|i]; simpl in Hstep.
  - injection Hstep as <-. unfold run_on.
    pose proof (steady_onmessage data r (page W t)) as (Hg & Hi & Hs).
    destruct (onmessage W data r (page W t)). simpl.
    split; [done|]. split; [done|]. apply Forall_app. by split.
  - injection Hstep as <-. unfold run_on.
    pose proof (steady_onclick r (page W t)) as (Hg & Hi & Hs).
    destruct (onclick W r (page W t)). simpl.
    split; [done|]. split; [done|]. apply Forall_app. by split.
  - injection Hstep as <-. split; [by repeat split|]. split; [|done].
    intros Hr _. by destruct (Hr v).
  - injection Hstep as <-. split; [by repeat split|]. split; [|done].
    intros _ Hm. by destruct (Hm v).
  - destruct (waiting W t !! i) as [k|] eqn:Hk; [|done]. injection Hstep as <-.
    pose proof (Forall_lookup_1 _ _ _ _ Hw Hk) as Hsafe.
    destruct Hsafe as [k' Hk']. unfold run_on. simpl.
    destruct (Hk' (page W t)) as (Hg & Hi & Hs).
    destruct (k' (page W t)). simpl.
    split; [done|]. split; [done|]. apply Forall_app. split; [|done].
    by apply Forall_delete.
Qed.

Lemma reachable_steady t : reachable W t -> Forall (steady W) (waiting W t).
Proof.
  induction 1 as [|t e t' _ IH Hstep]; [done|].
  by destruct (step_steady t t' e IH Hstep) as (_ & _ & Hs).
Qed.

(** X21: the client never takes anything back.  Over any event, in any
    reachable state and under any interleaving of its handlers, what was
    written to the socket, displayed and reported stays, in order, and no
    peer, key pair or session id is dropped. *)
Theorem page_only_grows (t t' : Tab W) (e : event W) :
  reachable W t -> step W t e = Some t' -> grows W (page W t) (page W t').
Proof.
  intros Ht Hstep.
  by destruct (step_steady t t' e (reachable_steady t Ht) Hstep) as (Hg & _).
Qed.

(** X22: the handlers never write to the input fields: only typing
    changes the recipient field or the message field, and in particular a
    message that has been sent stays in its field. *)
Theorem handlers_keep_inputs (t t' : Tab W) (e : event W) :
  reachable W t -> step W t e = Some t' ->
  (forall v, e <> type_recipient v) -> (forall v, e <> type_message v) ->
  recipientInput W (page W t') = recipientInput W (page W t) /\
  messageInput W (page W t') = messageInput W (page W t).
Proof.
  intros Ht Hstep Hr Hm.
  destruct (step_steady t t' e (reachable_steady t Ht) Hstep) as (_ & Hi & _).
  by apply Hi.
Qed.

Lemma careful_onmessage data r : careful_handler W (onmessage W data r).
Proof.
  intros p Hkp Hpeers. right. unfold onmessage.
  destruct data as [[sid|peerId key|senderId ciphertext senderPublicKey|]|];
    rewrite ?Hkp, ?Hpeers, ?lookup_empty; try done.
  - simpl. split; [done|]. constructor; [|done]. constructor.
    intros q _ _. left. by eexists.
  - unfold decrypt_and_display. by rewrite Hpeers, lookup_empty.
Qed.

Lemma careful_onclick r : careful_handler W (onclick W r).
Proof.
  intros p Hkp Hpeers. right. unfold onclick.
  destruct (String.eqb _ _); [done|]. by rewrite Hpeers, lookup_empty.
Qed.

(** Until the key pair is set there is no peer, and no continuation that
    would record one. *)
Lemma reachable_careful t :
  reachable W t ->
  is_Some (myECDHKeyPair W (page W t)) \/
  (peers W (page W t) = ∅ /\ Forall (careful W) (waiting W t)).
Proof.
  induction 1 as [|t e t' Ht IH Hstep]; [by right|].
  destruct (myECDHKeyPair W (page W t)) as [kp|] eqn:Hkp.
  { left.
    destruct (step_steady t t' e (reachable_steady t Ht) Hstep)
      as ((_ & _ & _ & _ & Hk & _) & _).
    apply Hk. rewrite Hkp. by eexists. }
  destruct IH as [[? [=]]|[Hpeers Hw]].
  destruct e as [data r|r|v|v|i]; simpl in Hstep.
  - injection Hstep as <-. unfold run_on.
    pose proof (careful_onmessage data r (page W t) Hkp Hpeers) as Hc.
    destruct (onmessage W data r (page W t)). simpl in *.
    destruct Hc as [Hc|[Hc1 Hc2]]; [by left|right].
    split; [done|]. apply Forall_app. by split.
  - injection Hstep as <-. unfold run_on.
    pose proof (careful_onclick r (page W t) Hkp Hpeers) as Hc.
    destruct (onclick W r (page W t)). simpl in *.
    destruct Hc as [Hc|[Hc1 Hc2]]; [by left|right].
    split; [done|]. apply Forall_app. by split.
  - injection Hstep as <-. by right.
  - injection Hstep as <-. by right.
  - destruct (waiting W t !! i) as [k|] eqn:Hk; [|done]. injection Hstep as <-.
    pose proof (Forall_lookup_1 _ _ _ _ Hw Hk) as Hcare.
    destruct Hcare as [k' Hk']. unfold run_on. simpl.
    pose proof (Hk' (page W t) Hkp Hpeers) as Hc.
    destruct (k' (page W t)). simpl in *.
    destruct Hc as [Hc|[Hc1 Hc2]]; [by left|right].
    split; [done|]. apply Forall_app. split; [|done]. by apply Forall_delete.
Qed.

(** X26: the client records no peer before it has its key pair, under
    any interleaving of its handlers; so a message that arrives before the
    key pair is set, whoever sent it and whatever key it carries, is not
    displayed: the handler ends at once with a TypeError. *)
Theorem message_before_key_pair_rejected (t : Tab W) :
  reachable W t -> myECDHKeyPair W (page W t) = None ->
  peers W (page W t) = ∅ /\
  forall senderId ciphertext senderPublicKey r,
    step W t (ws_message (Some (Message senderId ciphertext senderPublicKey)) r)
    = Some (mkTab W (reject W TypeError (page W t)) (waiting W t)).
Proof.
  intros Ht Hkp.
  destruct (reachable_careful t Ht) as [[? Hsome]|[Hpeers _]]; [congruence|].
  split; [done|]. intros senderId ciphertext senderPublicKey r.
  unfold step, run_on, onmessage, decrypt_and_display.
  rewrite Hkp, Hpeers, lookup_empty. unfold throw. by rewrite app_nil_r.
Qed.

(** X23: every shared key in the peers map was derived: in every
    reachable state the key stored for a peer is the ECDH key of some
    private scalar and the public key stored with it. *)
Theorem peers_hold_derived_keys (t : Tab W) (peerId : string) (peer : Peer W) :
  reachable W t -> peers W (page W t) !! peerId = Some peer ->
  exists d, sharedKey W peer = deriveSharedKey W d (peer_publicKey W peer).
Proof.
  intros Ht Hpeer. destruct (reachable_ok W t Ht) as [[_ Hpeers] _].
  by apply (Hpeers peerId).
Qed.

End ClientSessions.

(** Witnesses on [toy_crypto]. *)

Lemma click_without_effect_witness :
  Browser.step toy_crypto
    (Browser.mkTab toy_crypto
       (Browser.set_recipientInput toy_crypto "   " (Browser.blank toy_crypto)) [])
    (Browser.click toy_draws)
  = Some (Browser.mkTab toy_crypto
            (Browser.set_recipientInput toy_crypto "   " (Browser.blank toy_crypto)) []).
Proof. apply click_without_effect. left. reflexivity. Defined.

Lemma click_requests_key_witness :
  let t := Browser.mkTab toy_crypto
             (Browser.set_recipientInput toy_crypto " 654321 "
                (Browser.blank toy_crypto)) [] in
  Browser.step toy_crypto t (Browser.click toy_draws)
  = Some (Browser.mkTab toy_crypto
            (Browser.ws_send toy_crypto
               (Browser.send_getPublicKey
                  (Browser.trim (Browser.recipientInput toy_crypto
                                   (Browser.page toy_crypto t))))
               (Browser.page toy_crypto t))
            (Browser.waiting toy_crypto t)).
Proof.
  intros t. apply click_requests_key; [by vm_compute|reflexivity].
Defined.

(** A page of the client with a key pair and one peer, "654321". *)
Lemma undecryptable_message_not_displayed_witness :
  let p := Browser.peers_set toy_crypto "654321"
             (Browser.mkPeer toy_crypto "022"%byte "110"%byte)
             (Browser.blank toy_crypto) in
  exists t,
    Browser.run toy_crypto (Browser.mkTab toy_crypto p [])
      [Browser.ws_message
         (Some (Browser.Message "654321" (Browser.mkEnvelope [7] [1; 2; 3]) None))
         toy_draws;
       Browser.settle 0] = Some t /\
    Browser.waiting toy_crypto t = [] /\
    Browser.messages toy_crypto (Browser.page toy_crypto t)
    = Browser.messages toy_crypto p /\
    Browser.peers toy_crypto (Browser.page toy_crypto t) = Browser.peers toy_crypto p /\
    Browser.wire toy_crypto (Browser.page toy_crypto t) = Browser.wire toy_crypto p /\
    Browser.rejections toy_crypto (Browser.page toy_crypto t)
    = Browser.rejections toy_crypto p ++ [OperationError].
Proof.
  intros p.
  apply (undecryptable_message_not_displayed toy_crypto p "654321"
           (Browser.mkPeer toy_crypto "022"%byte "110"%byte));
    [by vm_compute|reflexivity].
Defined.

Lemma inline_key_ignored_for_known_peer_witness :
  let p := Browser.peers_set toy_crypto "654321"
             (Browser.mkPeer toy_crypto "022"%byte "110"%byte)
             (Browser.blank toy_crypto) in
  let c := Browser.mkEnvelope [7] [110; 104; 105] in
  exists t,
    Browser.run toy_crypto (Browser.mkTab toy_crypto p [])
      [Browser.ws_message (Some (Browser.Message "654321" c None)) toy_draws;
       Browser.settle 0] = Some t /\
    Browser.run toy_crypto (Browser.mkTab toy_crypto p [])
      [Browser.ws_message (Some (Browser.Message "654321" c (Some "BAo="))) toy_draws;
       Browser.settle 0] = Some t /\
    Browser.peers toy_crypto (Browser.page toy_crypto t) = Browser.peers toy_crypto p.
Proof.
  intros p c.
  apply (inline_key_ignored_for_known_peer toy_crypto p "654321"
           (Browser.mkPeer toy_crypto "022"%byte "110"%byte)).
  by vm_compute.
Defined.

Lemma typed_text_is_displayed_witness :
  let pA := Browser.set_messageInput toy_crypto [104; 105]
              (Browser.set_recipientInput toy_crypto " 654321 "
                 (Browser.peers_set toy_crypto "654321"
                    (Browser.mkPeer toy_crypto "022"%byte "110"%byte)
                    (Browser.blank toy_crypto))) in
  let pB := Browser.peers_set toy_crypto "100000"
              (Browser.mkPeer toy_crypto "010"%byte "110"%byte)
              (Browser.blank toy_crypto) in
  exists tA sealed tB,
    Browser.run toy_crypto (Browser.mkTab toy_crypto pA [])
      [Browser.click toy_draws; Browser.settle 0] = Some tA /\
    Browser.wire toy_crypto (Browser.page toy_crypto tA)
    = Browser.wire toy_crypto pA ++ [Browser.send_message "654321" sealed] /\
    Browser.messages toy_crypto (Browser.page toy_crypto tA)
    = Browser.messages toy_crypto pA
      ++ [Browser.sent_to "654321" (Browser.messageInput toy_crypto pA)] /\
    Browser.run toy_crypto (Browser.mkTab toy_crypto pB [])
      [Browser.ws_message (Some (Browser.Message "100000" sealed None)) toy_draws;
       Browser.settle 0] = Some tB /\
    Browser.messages toy_crypto (Browser.page toy_crypto tB)
    = Browser.messages toy_crypto pB
      ++ [Browser.received "100000"
            (Unicode.strip_bom (Browser.messageInput toy_crypto pA))].
Proof.
  intros pA pB.
  apply (typed_text_is_displayed toy_crypto toy_crypto_laws pA pB "100000" "654321"
           (Browser.mkPeer toy_crypto "022"%byte "110"%byte)
           (Browser.mkPeer toy_crypto "010"%byte "110"%byte));
    try (by vm_compute); reflexivity.
Defined.

Lemma first_message_waits_for_key_witness :
  let p := Browser.set_messageInput toy_crypto [104; 105]
             (Browser.set_recipientInput toy_crypto " 654321 "
                (Browser.set_myECDHKeyPair toy_crypto
                   (Browser.generateECDHKeyPair toy_crypto 5%N)
                   (Browser.blank toy_crypto))) in
  let peerId := Browser.trim (Browser.recipientInput toy_crypto p) in
  let sharedKey := Browser.deriveSharedKey toy_crypto 5%N "022"%byte in
  exists t,
    Browser.run toy_crypto (Browser.mkTab toy_crypto p [])
      [Browser.click toy_draws;
       Browser.ws_message
         (Some (Browser.PublicKey peerId
                  (Browser.exportPublicKey toy_crypto "022"%byte))) toy_draws;
       Browser.settle 0; Browser.settle 0; Browser.settle 0] = Some t /\
    Browser.waiting toy_crypto t = [] /\
    Browser.wire toy_crypto (Browser.page toy_crypto t)
    = Browser.wire toy_crypto p
      ++ [Browser.send_getPublicKey peerId;
          Browser.send_message peerId
            (Browser.encryptWithKey toy_crypto sharedKey
               (Browser.messageInput toy_crypto p)
               (Browser.random_bytes toy_crypto toy_draws))] /\
    Browser.peers toy_crypto (Browser.page toy_crypto t)
    = <[peerId := Browser.mkPeer toy_crypto "022"%byte sharedKey]>
        (Browser.peers toy_crypto p) /\
    Browser.messages toy_crypto (Browser.page toy_crypto t)
    = Browser.messages toy_crypto p
      ++ [Browser.sent_to peerId (Browser.messageInput toy_crypto p)].
Proof.
  intros p peerId sharedKey.
  apply (first_message_waits_for_key toy_crypto toy_crypto_laws p
           (Browser.generateECDHKeyPair toy_crypto 5%N) "022"%byte);
    try (by vm_compute); reflexivity.
Defined.

Lemma handshake_in_session_witness :
  let A := Browser.generateECDHKeyPair toy_crypto 5%N in
  let B := Browser.generateECDHKeyPair toy_crypto 11%N in
  let pA := Browser.set_myECDHKeyPair toy_crypto A (Browser.blank toy_crypto) in
  let pB := Browser.set_myECDHKeyPair toy_crypto B (Browser.blank toy_crypto) in
  let c := Browser.mkEnvelope [7] [110; 104; 105] in
  exists tA tB peerA peerB,
    Browser.run toy_crypto (Browser.mkTab toy_crypto pB [])
      [Browser.ws_message
         (Some (Browser.PublicKey "100000"
                  (Browser.exportPublicKey toy_crypto
                     (Browser.publicKey toy_crypto A)))) toy_draws;
       Browser.settle 0; Browser.settle 0] = Some tB /\
    Browser.run toy_crypto (Browser.mkTab toy_crypto pA [])
      [Browser.ws_message
         (Some (Browser.Message "654321" c
                  (Some (Browser.exportPublicKey toy_crypto
                           (Browser.publicKey toy_crypto B))))) toy_draws;
       Browser.settle 0; Browser.settle 0] = Some tA /\
    Browser.peers toy_crypto (Browser.page toy_crypto tB) !! "100000" = Some peerA /\
    Browser.peers toy_crypto (Browser.page toy_crypto tA) !! "654321" = Some peerB /\
    Browser.sharedKey toy_crypto peerA = Browser.sharedKey toy_crypto peerB.
Proof.
  intros A B pA pB c.
  apply (handshake_in_session toy_crypto toy_crypto_laws 5%N 11%N pA pB);
    reflexivity.
Defined.

Lemma page_only_grows_witness :
  exists t t',
    Browser.run toy_crypto (Browser.opened toy_crypto) toy_session = Some t /\
    Browser.step toy_crypto t (Browser.settle 0) = None /\
    Browser.step toy_crypto t (Browser.click toy_draws) = Some t' /\
    Browser.grows toy_crypto (Browser.page toy_crypto t) (Browser.page toy_crypto t').
Proof.
  eexists _, _. split; [reflexivity|]. split; [reflexivity|].
  split; [reflexivity|].
  eapply (page_only_grows toy_crypto _ _ (Browser.click toy_draws)); [|reflexivity].
  eapply (tab_run_reachable toy_crypto toy_session);
    [apply Browser.reachable_opened|reflexivity].
Defined.

Lemma handlers_keep_inputs_witness :
  exists t t',
    Browser.run toy_crypto (Browser.opened toy_crypto) toy_session = Some t /\
    Browser.step toy_crypto t (Browser.click toy_draws) = Some t' /\
    Browser.recipientInput toy_crypto (Browser.page toy_crypto t')
    = Browser.recipientInput toy_crypto (Browser.page toy_crypto t) /\
    Browser.messageInput toy_crypto (Browser.page toy_crypto t')
    = Browser.messageInput toy_crypto (Browser.page toy_crypto t).
Proof.
  eexists _, _. split; [reflexivity|]. split; [reflexivity|].
  eapply (handlers_keep_inputs toy_crypto _ _ (Browser.click toy_draws));
    [|reflexivity|discriminate|discriminate].
  eapply (tab_run_reachable toy_crypto toy_session);
    [apply Browser.reachable_opened|reflexivity].
Defined.

Lemma peers_hold_derived_keys_witness :
  exists t peer,
    Browser.run toy_crypto (Browser.opened toy_crypto) toy_key_session = Some t /\
    Browser.peers toy_crypto (Browser.page toy_crypto t) !! "654321" = Some peer /\
    exists d, Browser.sharedKey toy_crypto peer
              = Browser.deriveSharedKey toy_crypto d
                  (Browser.peer_publicKey toy_crypto peer).
Proof.
  eexists _, _. split; [reflexivity|]. split; [reflexivity|].
  eapply (peers_hold_derived_keys toy_crypto _ "654321").
  - eapply (tab_run_reachable toy_crypto toy_key_session);
      [apply Browser.reachable_opened|reflexivity].
  - reflexivity.
Defined.

(** * What a frame can change in the relay *)

Section RelayFrames.
Import Relay.



End RelayFrames.


Lemma message_before_key_pair_rejected_witness :
  exists t,
    Browser.run toy_crypto (Browser.opened toy_crypto)
      [Browser.ws_message (Some (Browser.Init "100000")) toy_draws;
       Browser.type_recipient " 654321 "; Browser.click toy_draws] = Some t /\
    Browser.peers toy_crypto (Browser.page toy_crypto t) = ∅ /\
    forall senderId ciphertext senderPublicKey r,
      Browser.step toy_crypto t
        (Browser.ws_message
           (Some (Browser.Message senderId ciphertext senderPublicKey)) r)
      = Some (Browser.mkTab toy_crypto
                (Browser.reject toy_crypto TypeError (Browser.page toy_crypto t))
                (Browser.waiting toy_crypto t)).
Proof.
  eexists. split; [reflexivity|].
  apply message_before_key_pair_rejected; [|reflexivity].
  eapply (tab_run_reachable toy_crypto
            [Browser.ws_message (Some (Browser.Init "100000")) toy_draws;
             Browser.type_recipient " 654321 "; Browser.click toy_draws]);
    [apply Browser.reachable_opened|reflexivity].
Defined.
